(** * NFL coaching network: edge construction and view resolution

    A shallow embedding of the two scripts that carry the design of the
    repository:

    - [Python Scrapers/convert to network format.py], which turns roster
      rows into hierarchical and co-staff edges (module [EdgeBuilder]);
    - [Network Vis/network_app.py], which negotiates column names
      (module [Schema]) and derives the visible node and edge sets from a
      selection and the year and team facets (module [NetworkApp]).

    A pandas data frame is a list of rows; a cell that may be missing
    (NaN) is an [option]; a Python set of node ids is a [gset]; the
    networkx [DiGraph] is a pair of adjacency maps. *)

From stdpp Require Import gmap strings list sorting.

Local Open Scope string_scope.
Local Open Scope list_scope.
Local Open Scope Z_scope.

#[local] Set Warnings "-clear-no-such-hyp".

(** ** Cells and the Python comparisons on them *)

(** [a == b] on two cells: a missing cell (NaN) is equal to nothing, not
    even to another missing cell. *)
Definition cell_eq {A} `{EqDecision A} (a b : option A) : bool :=
  match a, b with
  | Some x, Some y => bool_decide (x = y)
  | _, _ => false
  end.

(** [a < b] on two numeric cells: false as soon as one is missing. *)
Definition cell_lt (a b : option Z) : bool :=
  match a, b with
  | Some x, Some y => bool_decide (x < y)
  | _, _ => false
  end.

(** [Series.isin(values)] on one cell; a missing cell is in no list of
    present values. *)
Definition isin {A} `{EqDecision A} (values : list A) (c : option A) : bool :=
  match c with
  | Some x => bool_decide (x ∈ values)
  | None => false
  end.

(** [drop_duplicates] keeps the first occurrence of every value, in the
    order of appearance. *)
Fixpoint drop_duplicates_from {A} `{EqDecision A} (seen l : list A) : list A :=
  match l with
  | [] => []
  | x :: l' =>
      if decide (x ∈ seen) then drop_duplicates_from seen l'
      else x :: drop_duplicates_from (x :: seen) l'
  end.

Definition drop_duplicates {A} `{EqDecision A} (l : list A) : list A :=
  drop_duplicates_from [] l.

(** The ordered pairs visited by two nested loops over the same rows. *)
Definition nested_pairs {A} (g : list A) : list (A * A) :=
  src ← g; tgt ← g; [(src, tgt)].

Module EdgeBuilder.

(** One line of the roster file. *)
Record RosterRow := {
  Team : option string;
  Year : option Z;
  role_category : option string;
  role_subcategory : option string;
  position_group : option string;
  side_of_ball : option string;
  Name : option string
}.

#[export] Instance RosterRow_eq_dec : EqDecision RosterRow.
Proof. solve_decision. Defined.

Definition allowed_roles : list string :=
  ["Head Coach"; "Coordinator"; "Position Coach - Defense";
   "Position Coach - Offense"; "Specialist Coach"].

Definition hierarchy_map : gmap string Z :=
  list_to_map
    [("Head Coach", 1); ("Coordinator", 2); ("Position Coach - Defense", 3);
     ("Position Coach - Offense", 3); ("Specialist Coach", 4)].

(** [df["role_category"].map(hierarchy_map)] on one cell. *)
Definition level_of (c : option string) : option Z :=
  c ≫= (hierarchy_map !!.).

(** The nodes table: the distinct names in order of first appearance,
    numbered from 1. *)
Record NodeRow := { coach : option string; node_coach_id : Z }.

Definition make_nodes (df : list RosterRow) : list NodeRow :=
  imap (λ i n, {| coach := n; node_coach_id := Z.of_nat i + 1 |})
       (drop_duplicates (Name <$> df)).

(** A roster row with its two derived columns. *)
Record StaffRow := {
  base : RosterRow;
  hierarchy_level : option Z;
  coach_id : option Z
}.

#[export] Instance StaffRow_eq_dec : EqDecision StaffRow.
Proof. solve_decision. Defined.

(** [df.merge(nodes, left_on="Name", right_on="coach", how="left")]: one
    output row per matching node, a missing [coach_id] when there is
    none; missing keys match each other. *)
Definition merge_row (nodes : list NodeRow) (r : RosterRow) : list StaffRow :=
  match filter (λ n, coach n = Name r) nodes with
  | [] => [{| base := r; hierarchy_level := level_of (role_category r);
              coach_id := None |}]
  | ms => (λ n, {| base := r; hierarchy_level := level_of (role_category r);
                   coach_id := Some (node_coach_id n) |}) <$> ms
  end.

(** Lines 8 to 26: the frame the two loops run over. *)
Definition prepare (raw : list RosterRow) : list StaffRow :=
  let df := filter (λ r, isin allowed_roles (role_category r)) raw in
  let nodes := make_nodes df in
  df ≫= merge_row nodes.

(** [groupby(["Team", "Year"])]: rows with a missing key are left out,
    the groups come in ascending key order and keep the row order. *)
Definition group_key (s : StaffRow) : option (string * Z) :=
  t ← Team (base s); y ← Year (base s); Some (t, y).

Definition key_le (a b : string * Z) : Prop :=
  if decide (a.1 = b.1) then a.2 ≤ b.2 else String.leb a.1 b.1.

#[export] Instance key_le_dec a b : Decision (key_le a b).
Proof. unfold key_le. destruct (decide (a.1 = b.1)); apply _. Defined.

Definition groupby_team_year (df : list StaffRow)
  : list ((string * Z) * list StaffRow) :=
  let keys := merge_sort key_le (drop_duplicates (omap group_key df)) in
  (λ k, (k, filter (λ s, group_key s = Some k) df)) <$> keys.

(** *** Hierarchical edges *)

Record HierEdge := {
  from_coach_id : option Z;
  to_coach_id : option Z;
  team : string;
  year : Z;
  from_role : option string;
  to_role : option string;
  from_side : option string;
  to_side : option string;
  edge_weight : Z;
  edge_type : string
}.

#[export] Instance HierEdge_eq_dec : EqDecision HierEdge.
Proof. solve_decision. Defined.

Definition hier_edge (k : string * Z) (src tgt : StaffRow) : HierEdge :=
  {| from_coach_id := coach_id src;
     to_coach_id := coach_id tgt;
     team := k.1;
     year := k.2;
     from_role := role_category (base src);
     to_role := role_category (base tgt);
     from_side := side_of_ball (base src);
     to_side := side_of_ball (base tgt);
     edge_weight := 1;
     edge_type := "hierarchical" |}.

(** The two nested [if]s of the loop body. *)
Definition supervises (src tgt : StaffRow) : bool :=
  if cell_lt (hierarchy_level src) (hierarchy_level tgt) then
    if cell_eq (role_category (base src)) (Some "Head Coach")
       || cell_eq (side_of_ball (base src)) (side_of_ball (base tgt))
    then true else false
  else false.

(** The loop body appends to the list built so far. *)
Definition hier_step (k : string * Z) (edges : list HierEdge)
    (p : StaffRow * StaffRow) : list HierEdge :=
  if supervises p.1 p.2 then edges ++ [hier_edge k p.1 p.2] else edges.

Definition hier_group (edges : list HierEdge)
    (kg : (string * Z) * list StaffRow) : list HierEdge :=
  foldl (hier_step kg.1) edges (nested_pairs kg.2).

Definition hierarchical_edges (df : list StaffRow) : list HierEdge :=
  foldl hier_group [] (groupby_team_year df).

(** *** Co-staff edges *)

Record CoStaffEdge := {
  cs_from_coach_id : option Z;
  cs_to_coach_id : option Z;
  cs_team : string;
  cs_year : Z;
  cs_from_role : option string;
  cs_from_role_subcategory : option string;
  cs_from_position_group : option string;
  cs_to_role : option string;
  cs_to_role_subcategory : option string;
  cs_to_position_group : option string;
  cs_from_side : option string;
  cs_to_side : option string
}.

#[export] Instance CoStaffEdge_eq_dec : EqDecision CoStaffEdge.
Proof. solve_decision. Defined.

Definition costaff_edge (k : string * Z) (src tgt : StaffRow) : CoStaffEdge :=
  {| cs_from_coach_id := coach_id src;
     cs_to_coach_id := coach_id tgt;
     cs_team := k.1;
     cs_year := k.2;
     cs_from_role := role_category (base src);
     cs_from_role_subcategory := role_subcategory (base src);
     cs_from_position_group := position_group (base src);
     cs_to_role := role_category (base tgt);
     cs_to_role_subcategory := role_subcategory (base tgt);
     cs_to_position_group := position_group (base tgt);
     cs_from_side := side_of_ball (base src);
     cs_to_side := side_of_ball (base tgt) |}.

Definition costaff_step (k : string * Z) (edges : list CoStaffEdge)
    (p : StaffRow * StaffRow) : list CoStaffEdge :=
  edges ++ [costaff_edge k p.1 p.2].

Definition costaff_group (edges : list CoStaffEdge)
    (kg : (string * Z) * list StaffRow) : list CoStaffEdge :=
  foldl (costaff_step kg.1) edges (nested_pairs kg.2).

Definition costaff_edges (df : list StaffRow) : list CoStaffEdge :=
  foldl costaff_group [] (groupby_team_year df).

(** The whole script, from the raw roster to the three tables. *)
Definition build_edges (raw : list RosterRow)
  : list NodeRow * list HierEdge * list CoStaffEdge :=
  let df := prepare raw in
  (make_nodes (filter (λ r, isin allowed_roles (role_category r)) raw),
   hierarchical_edges df, costaff_edges df).

(** *** Views of the pipeline used to state its properties *)

(** A row takes part in edge construction when its role is allowed. *)
Definition eligible (r : RosterRow) : bool := isin allowed_roles (role_category r).

(** The id the merge gives to a name. *)
Definition coach_id_of (nodes : list NodeRow) (n : option string) : option Z :=
  node_coach_id <$> head (filter (λ nd, coach nd = n) nodes).

(** The merged row of a roster row. *)
Definition annotate (nodes : list NodeRow) (r : RosterRow) : StaffRow :=
  {| base := r;
     hierarchy_level := level_of (role_category r);
     coach_id := coach_id_of nodes (Name r) |}.

(** The rows of one team-season. *)
Definition in_team_season (k : string * Z) (r : RosterRow) : Prop :=
  Team r = Some k.1 ∧ Year r = Some k.2.

#[export] Instance in_team_season_dec k r : Decision (in_team_season k r).
Proof. unfold in_team_season. apply _. Defined.

(** What one group appends to the two edge lists. *)
Definition hier_emitted (kg : (string * Z) * list StaffRow) : list HierEdge :=
  (λ p, hier_edge kg.1 p.1 p.2) <$> filter (λ p, supervises p.1 p.2) (nested_pairs kg.2).

Definition costaff_emitted (kg : (string * Z) * list StaffRow) : list CoStaffEdge :=
  (λ p, costaff_edge kg.1 p.1 p.2) <$> nested_pairs kg.2.

(** A row with its role, its side of the ball and its name. *)
Definition complete (r : RosterRow) : Prop :=
  is_Some (role_category r) ∧ is_Some (side_of_ball r) ∧ is_Some (Name r).

#[export] Instance complete_dec r : Decision (complete r).
Proof. unfold complete. apply _. Defined.

End EdgeBuilder.

(** ** Column-name negotiation (network_app.py, lines 62 to 80) *)

Module Schema.

(** [st.error(msg); st.stop()] ends the run with the message; nothing
    after it is computed. *)
Inductive outcome (A : Type) : Type :=
  | Loaded (a : A)
  | Stopped (msg : string).
Arguments Loaded {A} a.
Arguments Stopped {A} msg.

Definition has_column (c : string) (columns : list string) : bool :=
  bool_decide (c ∈ columns).

(** The [(source_col, target_col)] pair. *)
Definition detect_edge_columns (columns : list string) : outcome (string * string) :=
  if has_column "from" columns && has_column "to" columns then
    Loaded ("from", "to")
  else if has_column "source" columns && has_column "target" columns then
    Loaded ("source", "target")
  else
    Stopped "Edges file must have either 'from'/'to' or 'source'/'target' columns".

(** The [(id_col, label_col)] pair. *)
Definition detect_node_columns (columns : list string) : outcome (string * string) :=
  if has_column "coach_id" columns then
    Loaded ("coach_id", if has_column "coach" columns then "coach" else "coach_id")
  else if has_column "id" columns then
    Loaded ("id", if has_column "label" columns then "label" else "id")
  else
    Stopped "Nodes file must have either 'id' or 'coach_id' column".

Record columns_used := {
  source_col : string;
  target_col : string;
  id_col : string;
  label_col : string
}.

(** Both detections in the order of the script: the edge columns first,
    the node columns only when the run has not been stopped. *)
Definition detect_columns (edge_columns node_columns : list string)
  : outcome columns_used :=
  match detect_edge_columns edge_columns with
  | Stopped msg => Stopped msg
  | Loaded (s, t) =>
      match detect_node_columns node_columns with
      | Stopped msg => Stopped msg
      | Loaded (i, l) =>
          Loaded {| source_col := s; target_col := t; id_col := i; label_col := l |}
      end
  end.

End Schema.

(** ** View resolution (network_app.py, lines 152 to 251) *)

Module NetworkApp.

Section resolve.
Context {K : Type} `{Countable K}.

(** One line of the edges file: the two endpoint cells and the two
    facet cells. *)
Record EdgeRow := {
  source : K;
  target : K;
  year : option Z;
  team : option string
}.

(** The edges frame: which facet columns exist, and the rows. *)
Record EdgeFrame := {
  has_year_column : bool;
  has_team_column : bool;
  edge_rows : list EdgeRow
}.

(** One line of the nodes file. *)
Record NodeRow := {
  id : K;
  community : option Z
}.

(** *** The directed graph *)

(** networkx keeps the node table and two adjacency tables, and keeps
    every node as a key of both. *)
Record DiGraph := {
  node : gset K;
  succ : gmap K (gset K);
  pred : gmap K (gset K)
}.

Definition empty_graph : DiGraph := {| node := ∅; succ := ∅; pred := ∅ |}.

Definition add_node_if_new (u : K) (G : DiGraph) : DiGraph :=
  if decide (u ∈ node G) then G
  else {| node := {[u]} ∪ node G;
          succ := <[u := ∅]> (succ G);
          pred := <[u := ∅]> (pred G) |}.

Definition add_edge (u v : K) (G : DiGraph) : DiGraph :=
  let G1 := add_node_if_new v (add_node_if_new u G) in
  {| node := node G1;
     succ := alter (λ s, {[v]} ∪ s) u (succ G1);
     pred := alter (λ s, {[u]} ∪ s) v (pred G1) |}.

(** [nx.from_pandas_edgelist(edges_df, source_col, target_col, ...)]. *)
Definition from_pandas_edgelist (rows : list EdgeRow) : DiGraph :=
  foldl (λ G e, add_edge (source e) (target e) G) empty_graph rows.

(** [G.successors(n)] and [G.predecessors(n)] raise when [n] is not a
    node; [None] stands for the raise. *)
Definition successors (G : DiGraph) (n : K) : option (gset K) := succ G !! n.
Definition predecessors (G : DiGraph) (n : K) : option (gset K) := pred G !! n.

(** The same adjacency, read off the edge rows. *)
Definition endpoints (rows : list EdgeRow) : gset K :=
  list_to_set (source <$> rows) ∪ list_to_set (target <$> rows).

Definition successors_of (rows : list EdgeRow) (n : K) : gset K :=
  list_to_set (target <$> filter (λ e, source e = n) rows).

Definition predecessors_of (rows : list EdgeRow) (n : K) : gset K :=
  list_to_set (source <$> filter (λ e, target e = n) rows).

Definition neighbours_of (rows : list EdgeRow) (n : K) : gset K :=
  successors_of rows n ∪ predecessors_of rows n.

(** A graph whose nodes are [N] and whose adjacency tables hold [S n]
    and [P n] for the nodes [n] of [N], and nothing else. *)
Definition graph_with (N : gset K) (S P : K → gset K) (G : DiGraph) : Prop :=
  node G = N
  ∧ (∀ n, succ G !! n = if decide (n ∈ N) then Some (S n) else None)
  ∧ (∀ n, pred G !! n = if decide (n ∈ N) then Some (P n) else None).

(** *** Selection and widgets *)

Inductive FilterMode := IndividualNode | Community.

#[export] Instance FilterMode_eq_dec : EqDecision FilterMode.
Proof. solve_decision. Defined.

(** The variables the selection block leaves behind; the ones a mode
    does not use are [None]. *)
Record Selection := {
  filter_mode : FilterMode;
  selected_node : option K;
  community_nodes : option (list K);
  connection_depth : option Z
}.

(** The side-bar widgets read while the view is resolved; a multiselect
    answers with a selection once it is shown its options. *)
Record Widgets := {
  include_external_checkbox : bool;
  year_multiselect : list Z → list Z;
  team_multiselect : list string → list string
}.

(** Line 111: the ids of the rows whose community is the selected one. *)
Definition community_members (nodes_df : list NodeRow) (selected_community : Z)
  : list K :=
  id <$> filter (λ r, cell_eq (community r) (Some selected_community)) nodes_df.

(** *** Connected nodes (lines 172 to 212) *)

(** [connected_nodes.update(G.successors(n));
     connected_nodes.update(G.predecessors(n))]. *)
Definition update_with_neighbours (G : DiGraph) (connected : gset K) (n : K)
  : option (gset K) :=
  s ← successors G n;
  p ← predecessors G n;
  Some (connected ∪ s ∪ p).

(** A [for] loop whose body may raise. *)
Definition for_each {A B} (body : B → A → option B) (l : list A) (init : B)
  : option B :=
  foldl (λ acc x, acc ≫= λ b, body b x) (Some init) l.

Definition individual_nodes (G : DiGraph) (selected : K) (depth : option Z)
  : option (gset K) :=
  if bool_decide (depth = Some 1) then
    update_with_neighbours G {[selected]} selected
  else
    s ← successors G selected;
    p ← predecessors G selected;
    let first_hop := s ∪ p in
    for_each (update_with_neighbours G) (elements first_hop)
             ({[selected]} ∪ first_hop).

Definition community_nodes_view (G : DiGraph) (members : list K)
    (include_external : bool) : option (gset K) :=
  let connected : gset K := list_to_set members in
  if include_external then
    for_each (λ c n, if decide (n ∈ node G) then update_with_neighbours G c n
                     else Some c)
             members connected
  else Some connected.

(** The warning of the fallback branch; it carries the selection that
    was not found. *)
Inductive Warning := NodeNotFound (selected : option K).

(** The three branches: an individual node that is in the graph, a
    community with members, and the fallback to every node, which warns
    in individual mode only. *)
Definition connected_nodes (G : DiGraph) (sel : Selection) (w : Widgets)
  : option (gset K * option Warning) :=
  let fallback :=
    Some (node G,
          if decide (filter_mode sel = IndividualNode)
          then Some (NodeNotFound (selected_node sel)) else None) in
  match filter_mode sel with
  | IndividualNode =>
      match selected_node sel with
      | Some n =>
          if bool_decide (n ∈ node G) then
            c ← individual_nodes G n (connection_depth sel); Some (c, None)
          else fallback
      | None => fallback
      end
  | Community =>
      match community_nodes sel with
      | Some (m :: ms) =>
          c ← community_nodes_view G (m :: ms) (include_external_checkbox w);
          Some (c, None)
      | _ => fallback
      end
  end.

(** *** Facets (lines 216 to 251) *)

Definition endpoints_in (connected : gset K) (e : EdgeRow) : bool :=
  bool_decide (source e ∈ connected) && bool_decide (target e ∈ connected).

Definition sorted_years (rows : list EdgeRow) : list Z :=
  merge_sort Z.le (drop_duplicates (omap year rows)).

Definition sorted_teams (rows : list EdgeRow) : list string :=
  merge_sort (λ a b : string, String.leb a b) (drop_duplicates (omap team rows)).

(** One facet: the selection made (when the widget was shown) and the
    rows kept. *)
Definition facet {A} `{EqDecision A} (has_column : bool) (options : list A)
    (multiselect : list A → list A) (cell : EdgeRow → option A)
    (rows : list EdgeRow) : option (list A) * list EdgeRow :=
  if has_column then
    if bool_decide (0 < length options)%nat then
      let selected := multiselect options in
      match selected with
      | [] => (Some selected, rows)
      | _ :: _ => (Some selected, filter (λ e, isin selected (cell e)) rows)
      end
    else (None, rows)
  else (None, rows).

Record View := {
  view_connected_nodes : gset K;
  view_warning : option Warning;
  selected_years : option (list Z);
  selected_teams : option (list string);
  edges_df : list EdgeRow;
  nodes_in_edges : gset K;
  nodes_df : list NodeRow
}.

(** Lines 216 to 251, once the connected nodes are known. *)
Definition filter_view (edges : EdgeFrame) (nodes : list NodeRow) (w : Widgets)
    (connected : gset K) (warning : option Warning) : View :=
  let filtered0 := filter (λ e, endpoints_in connected e) (edge_rows edges) in
  let yf := facet (has_year_column edges) (sorted_years filtered0)
                  (year_multiselect w) year filtered0 in
  let tf := facet (has_team_column edges) (sorted_teams yf.2)
                  (team_multiselect w) team yf.2 in
  let in_edges : gset K :=
    list_to_set (source <$> tf.2) ∪ list_to_set (target <$> tf.2) in
  {| view_connected_nodes := connected;
     view_warning := warning;
     selected_years := yf.1;
     selected_teams := tf.1;
     edges_df := tf.2;
     nodes_in_edges := in_edges;
     nodes_df := filter (λ r, bool_decide (id r ∈ in_edges)) nodes |}.

Definition resolve_view (edges : EdgeFrame) (nodes : list NodeRow)
    (sel : Selection) (w : Widgets) : option View :=
  let G_full := from_pandas_edgelist (edge_rows edges) in
  cw ← connected_nodes G_full sel w;
  Some (filter_view edges nodes w cw.1 cw.2).

(** Whether a cell passes a facet: a facet restricts only when its
    widget was shown and answered with a non-empty selection. *)
Definition passes {A} `{EqDecision A} (selected : option (list A))
    (c : option A) : bool :=
  match selected with
  | Some (x :: l) => isin (x :: l) c
  | _ => true
  end.

(** The same selection under another depth setting, and the same frame
    without one of its facet columns. *)
Definition with_depth (sel : Selection) (depth : option Z) : Selection :=
  {| filter_mode := filter_mode sel;
     selected_node := selected_node sel;
     community_nodes := community_nodes sel;
     connection_depth := depth |}.

Definition without_year_column (edges : EdgeFrame) : EdgeFrame :=
  {| has_year_column := false;
     has_team_column := has_team_column edges;
     edge_rows := edge_rows edges |}.

Definition without_team_column (edges : EdgeFrame) : EdgeFrame :=
  {| has_year_column := has_year_column edges;
     has_team_column := false;
     edge_rows := edge_rows edges |}.

End resolve.
Arguments EdgeRow K : clear implicits.
Arguments EdgeFrame K : clear implicits.
Arguments NodeRow K : clear implicits.
Arguments Selection K : clear implicits.
Arguments DiGraph K {_ _}.
Arguments View K {_ _}.

End NetworkApp.

(** ** Small graphs used as examples *)

Module Examples.
Import NetworkApp.

Definition edge (s t : string) (y : Z) (tm : string) : EdgeRow string :=
  {| source := s; target := t; year := Some y; team := Some tm |}.

Definition frame (rows : list (EdgeRow string)) : EdgeFrame string :=
  {| has_year_column := true; has_team_column := true; edge_rows := rows |}.

(** [A -> B] and [C -> A]. *)
Definition abc : EdgeFrame string :=
  frame [edge "A" "B" 2000 "DAL"; edge "C" "A" 2001 "SF"].

(** The same with [B -> D]. *)
Definition abcd : EdgeFrame string :=
  frame [edge "A" "B" 2000 "DAL"; edge "C" "A" 2001 "SF"; edge "B" "D" 2002 "DAL"].

(** [A -> B] and [A -> C] in 2000, [B -> C] in 2001. *)
Definition triangle : EdgeFrame string :=
  frame [edge "A" "B" 2000 "DAL"; edge "A" "C" 2000 "DAL"; edge "B" "C" 2001 "SF"].

Definition coaches : list (NodeRow string) :=
  [ {| id := "A"; community := Some 1 |};
    {| id := "B"; community := Some 1 |};
    {| id := "C"; community := Some 2 |};
    {| id := "D"; community := None |};
    {| id := "E"; community := Some 1 |} ].

Definition individual (f : string) (depth : Z) : Selection string :=
  {| filter_mode := IndividualNode; selected_node := Some f;
     community_nodes := None; connection_depth := Some depth |}.

Definition in_community (c : Z) : Selection string :=
  {| filter_mode := Community; selected_node := None;
     community_nodes := Some (community_members coaches c);
     connection_depth := None |}.

(** Widgets left on their defaults (every option selected), with the
    box for external connections ticked or not. *)
Definition defaults (external : bool) : Widgets :=
  {| include_external_checkbox := external;
     year_multiselect := λ options, options;
     team_multiselect := λ options, options |}.

(** The year facet answered with the given years, whatever is offered. *)
Definition pick_years (years : list Z) : Widgets :=
  {| include_external_checkbox := false;
     year_multiselect := λ options, filter (λ y, y ∈ years) options;
     team_multiselect := λ options, options |}.

End Examples.

(** ** The rest of the two scripts *)

Module EdgeBuilderMore.
Import EdgeBuilder.

(** The co-staff edge of the same two rows taken the other way round. *)
Definition reversed (e : CoStaffEdge) : CoStaffEdge :=
  {| cs_from_coach_id := cs_to_coach_id e;
     cs_to_coach_id := cs_from_coach_id e;
     cs_team := cs_team e;
     cs_year := cs_year e;
     cs_from_role := cs_to_role e;
     cs_from_role_subcategory := cs_to_role_subcategory e;
     cs_from_position_group := cs_to_position_group e;
     cs_to_role := cs_from_role e;
     cs_to_role_subcategory := cs_from_role_subcategory e;
     cs_to_position_group := cs_from_position_group e;
     cs_from_side := cs_to_side e;
     cs_to_side := cs_from_side e |}.

(** A co-staff edge that joins the two coaches of a hierarchical edge in
    the same team-season, with the same roles and sides. *)
Definition same_pair (h : HierEdge) (c : CoStaffEdge) : Prop :=
  cs_from_coach_id c = from_coach_id h ∧ cs_to_coach_id c = to_coach_id h
  ∧ cs_team c = team h ∧ cs_year c = year h
  ∧ cs_from_role c = from_role h ∧ cs_to_role c = to_role h
  ∧ cs_from_side c = from_side h ∧ cs_to_side c = to_side h.

End EdgeBuilderMore.

Module NetworkAppMore.
Import NetworkApp.

Section details.
Context {K : Type} `{Countable K}.

(** Lines 98 to 101: the community labels offered, the present ones in
    ascending order. The labels are numbers, whose text is never [NA],
    so the test on the text keeps every one of them. *)
Definition communities (nodes_df : list (NodeRow K)) : list Z :=
  merge_sort Z.le (drop_duplicates (omap community nodes_df)).

(** Lines 96 to 118: the community and its members, or [None] when the
    frame has no community column or no community, and the script falls
    back to individual mode. *)
Definition select_community (has_community_column : bool)
    (nodes_df : list (NodeRow K)) (selectbox : list Z → Z)
  : option (Z * list K) :=
  if has_community_column then
    let options := communities nodes_df in
    if bool_decide (0 < length options)%nat then
      let selected_community := selectbox options in
      Some (selected_community, community_members nodes_df selected_community)
    else None
  else None.

(** The variables left by the community branch. *)
Definition community_selection (members : list K) : Selection K :=
  {| filter_mode := Community;
     selected_node := None;
     community_nodes := Some members;
     connection_depth := None |}.

(** Lines 253 to 258: the two counts shown above the graph. *)
Definition nodes_in_view (v : View K) : nat := length (nodes_df v).
Definition edges_in_view (v : View K) : nat := length (edges_df v).

(** Line 266: the graph that is drawn. *)
Definition drawn_graph (v : View K) : DiGraph K :=
  from_pandas_edgelist (edges_df v).

(** Lines 462 to 468: the year or team restriction of a connection
    table, applied when the column exists and the selection is not
    empty. *)
Definition table_facet {A} `{EqDecision A} (has_column : bool)
    (selected : option (list A)) (cell : EdgeRow K → option A)
    (rows : list (EdgeRow K)) : list (EdgeRow K) :=
  if has_column then
    match selected with
    | Some (x :: l) => filter (λ e, isin (x :: l) (cell e)) rows
    | _ => rows
    end
  else rows.

(** Lines 456 to 468: the outgoing and the incoming rows of the selected
    node, taken from the full edges frame. *)
Definition connection_tables (edges_df_full : EdgeFrame K) (selected : K)
    (selected_years : option (list Z)) (selected_teams : option (list string))
  : list (EdgeRow K) * list (EdgeRow K) :=
  let out_edges := filter (λ e, source e = selected) (edge_rows edges_df_full) in
  let in_edges := filter (λ e, target e = selected) (edge_rows edges_df_full) in
  let out_edges := table_facet (has_year_column edges_df_full) selected_years year out_edges in
  let in_edges := table_facet (has_year_column edges_df_full) selected_years year in_edges in
  let out_edges := table_facet (has_team_column edges_df_full) selected_teams team out_edges in
  let in_edges := table_facet (has_team_column edges_df_full) selected_teams team in_edges in
  (out_edges, in_edges).

(** Lines 443 to 582: what the details section is built from. The
    tables of an individual node are laid out with their [year] column
    first, so the section raises when the frame has none; [None] stands
    for the raise. *)
Inductive Details :=
  | NoDetails
  | NodeDetails (out_edges in_edges : list (EdgeRow K))
  | CommunityDetails (ids : list K).

Definition connection_details (edges_df_full : EdgeFrame K) (sel : Selection K)
    (v : View K) : option Details :=
  let G_full := from_pandas_edgelist (edge_rows edges_df_full) in
  match filter_mode sel with
  | IndividualNode =>
      match selected_node sel with
      | Some n =>
          if bool_decide (n ∈ node G_full) then
            let tables := connection_tables edges_df_full n
                            (selected_years v) (selected_teams v) in
            if has_year_column edges_df_full
            then Some (NodeDetails tables.1 tables.2)
            else None
          else Some NoDetails
      | None => Some NoDetails
      end
  | Community => Some (CommunityDetails (id <$> nodes_df v))
  end.

End details.
Arguments Details K : clear implicits.

End NetworkAppMore.

Module MoreExamples.
Import NetworkApp Examples.


(** A select box left on its first option. *)
Definition first_option (options : list Z) : Z := default 0 (head options).

End MoreExamples.

(** * Properties *)

(** ** Lists: duplicates, nested loops, tagged concatenation *)

Section list_facts.
Context {A : Type} `{EqDecision A}.

Lemma elem_of_drop_duplicates_from (seen l : list A) (x : A) :
  x ∈ drop_duplicates_from seen l ↔ x ∈ l ∧ x ∉ seen.
Proof.
  revert seen. induction l as [|y l IH]; intros seen; simpl.
  - set_solver.
  - destruct (decide (y ∈ seen)) as [Hy|Hy].
    + rewrite IH. set_solver.
    + rewrite elem_of_cons, IH. split.
      * intros [->|[? Hn]]; [set_solver|]. split; [set_solver|]. set_solver.
      * intros [Hx Hn]. apply elem_of_cons in Hx as [->|Hx]; [by left|].
        destruct (decide (x = y)) as [->|Hne]; [by left|]. right. set_solver.
Qed.

Lemma NoDup_drop_duplicates_from (seen l : list A) :
  NoDup (drop_duplicates_from seen l).
Proof.
  revert seen. induction l as [|y l IH]; intros seen; simpl.
  - constructor.
  - destruct (decide (y ∈ seen)); [apply IH|].
    constructor; [|apply IH].
    rewrite elem_of_drop_duplicates_from. set_solver.
Qed.

Lemma elem_of_drop_duplicates (l : list A) (x : A) :
  x ∈ drop_duplicates l ↔ x ∈ l.
Proof. unfold drop_duplicates. rewrite elem_of_drop_duplicates_from. set_solver. Qed.

Lemma NoDup_drop_duplicates (l : list A) : NoDup (drop_duplicates l).
Proof. apply NoDup_drop_duplicates_from. Qed.

Lemma elem_of_nested_pairs (g : list A) (a b : A) :
  (a, b) ∈ nested_pairs g ↔ a ∈ g ∧ b ∈ g.
Proof.
  unfold nested_pairs. rewrite list_elem_of_bind. split.
  - intros (x & Hin & Hx). apply list_elem_of_bind in Hin as (y & Hin & Hy).
    apply list_elem_of_singleton in Hin. by simplify_eq.
  - intros [Ha Hb]. exists a. split; [|done].
    apply list_elem_of_bind. exists b. split; [|done]. by apply list_elem_of_singleton.
Qed.

Lemma length_nested_pairs (g : list A) :
  length (nested_pairs g) = (length g * length g)%nat.
Proof.
  unfold nested_pairs.
  assert (Hinner : ∀ (src : A) (l : list A),
             length (l ≫= λ tgt, [(src, tgt)]) = length l).
  { intros src l. induction l as [|y l IH]; [done|].
    rewrite bind_cons. simpl. by rewrite IH. }
  assert (Houter : ∀ l1 l2 : list A,
             length (l1 ≫= λ src, l2 ≫= λ tgt, [(src, tgt)])
             = (length l1 * length l2)%nat).
  { intros l1 l2. induction l1 as [|x l1 IH]; [done|].
    rewrite bind_cons, length_app, Hinner, IH. done. }
  apply Houter.
Qed.

Lemma filter_all {B} (P : B → Prop) `{∀ x, Decision (P x)} (l : list B) :
  (∀ x, x ∈ l → P x) → filter P l = l.
Proof.
  induction l as [|x l IH]; intros Hall; [done|].
  rewrite filter_cons_True by (apply Hall; by left).
  f_equal. apply IH. intros y Hy. apply Hall. by right.
Qed.

Lemma filter_none {B} (P : B → Prop) `{∀ x, Decision (P x)} (l : list B) :
  (∀ x, x ∈ l → ¬ P x) → filter P l = [].
Proof.
  induction l as [|x l IH]; intros Hall; [done|].
  rewrite filter_cons_False by (apply Hall; by left).
  apply IH. intros y Hy. apply Hall. by right.
Qed.

(** Concatenating blocks whose elements carry the key of their block:
    selecting one key gives back that block. *)
Lemma filter_bind_tagged {B} `{EqDecision K} (tag : B → K) (f : K → list B)
    (ks : list K) (k0 : K) :
  NoDup ks →
  (∀ k b, b ∈ f k → tag b = k) →
  filter (λ b, tag b = k0) (ks ≫= f) = if decide (k0 ∈ ks) then f k0 else [].
Proof.
  intros Hnd Htag. induction Hnd as [|k ks Hk Hnd IH].
  - by rewrite decide_False by (by intros ?%elem_of_nil).
  - rewrite bind_cons, filter_app, IH. destruct (decide (k = k0)) as [->|Hne].
    + rewrite (decide_True (P := k0 ∈ k0 :: ks)) by (by left).
      rewrite (decide_False (P := k0 ∈ ks)) by done.
      rewrite app_nil_r. apply filter_all. intros b Hb. by apply Htag.
    + rewrite filter_none.
      2:{ intros b Hb Heq. apply Htag in Hb. congruence. }
      simpl. destruct (decide (k0 ∈ ks)) as [Hin|Hin].
      * rewrite (decide_True (P := k0 ∈ k :: ks)) by (by right). done.
      * rewrite (decide_False (P := k0 ∈ k :: ks)); [done|].
        intros [->|?]%elem_of_cons; done.
Qed.

End list_facts.

(** ** Cells *)

Lemma cell_lt_true (a b : option Z) :
  cell_lt a b = true ↔ ∃ x y, a = Some x ∧ b = Some y ∧ x < y.
Proof.
  unfold cell_lt. destruct a as [x|], b as [y|];
    try (split; [done|intros (?&?&?&?&?); done]).
  rewrite bool_decide_eq_true. split; [eauto|].
  intros (?&?&?&?&?). by simplify_eq.
Qed.

Lemma cell_eq_true {A} `{EqDecision A} (a b : option A) :
  cell_eq a b = true ↔ a = b ∧ is_Some a.
Proof.
  unfold cell_eq. destruct a as [x|], b as [y|];
    try (split; [done|intros [? [? ?]]; done]).
  rewrite bool_decide_eq_true. split.
  - intros ->. eauto.
  - intros [? _]. by simplify_eq.
Qed.

Lemma isin_true {A} `{EqDecision A} (values : list A) (c : option A) :
  isin values c = true ↔ ∃ x, c = Some x ∧ x ∈ values.
Proof.
  unfold isin. destruct c as [x|]; [|split; [done|intros (?&?&?); done]].
  rewrite bool_decide_eq_true. split; [eauto|]. intros (?&?&?). by simplify_eq.
Qed.

(** ** The edge builder *)

Module EdgeBuilderFacts.
Import EdgeBuilder.

Lemma foldl_hier_step k acc ps :
  foldl (hier_step k) acc ps
  = acc ++ ((λ p, hier_edge k p.1 p.2) <$> filter (λ p, supervises p.1 p.2) ps).
Proof.
  revert acc. induction ps as [|p ps IH]; intros acc; simpl.
  - by rewrite app_nil_r.
  - rewrite IH. unfold hier_step.
    destruct (supervises p.1 p.2) eqn:E.
    + rewrite filter_cons_True by (simpl; by rewrite E).
      rewrite fmap_cons. by rewrite <- app_assoc.
    + rewrite filter_cons_False by (simpl; rewrite E; by intros []). done.
Qed.

Lemma hierarchical_edges_bind df :
  hierarchical_edges df = groupby_team_year df ≫= hier_emitted.
Proof.
  unfold hierarchical_edges.
  assert (Hgen : ∀ gs acc, foldl hier_group acc gs = acc ++ (gs ≫= hier_emitted)).
  { induction gs as [|kg gs IH]; intros acc.
    - simpl. by rewrite app_nil_r.
    - cbn [foldl]. rewrite IH, bind_cons. unfold hier_group.
      rewrite foldl_hier_step. by rewrite <- app_assoc. }
  apply Hgen.
Qed.

Lemma foldl_costaff_step k acc ps :
  foldl (costaff_step k) acc ps = acc ++ ((λ p, costaff_edge k p.1 p.2) <$> ps).
Proof.
  revert acc. induction ps as [|p ps IH]; intros acc; simpl.
  - by rewrite app_nil_r.
  - rewrite IH. unfold costaff_step. by rewrite <- app_assoc.
Qed.

Lemma costaff_edges_bind df :
  costaff_edges df = groupby_team_year df ≫= costaff_emitted.
Proof.
  unfold costaff_edges.
  assert (Hgen : ∀ gs acc, foldl costaff_group acc gs = acc ++ (gs ≫= costaff_emitted)).
  { induction gs as [|kg gs IH]; intros acc.
    - simpl. by rewrite app_nil_r.
    - cbn [foldl]. rewrite IH, bind_cons. unfold costaff_group.
      rewrite foldl_costaff_step. by rewrite <- app_assoc. }
  apply Hgen.
Qed.

(** The groups: distinct keys, each with exactly its rows, none empty. *)
Lemma group_keys df :
  (groupby_team_year df).*1 = merge_sort key_le (drop_duplicates (omap group_key df)).
Proof.
  unfold groupby_team_year.
  induction (merge_sort key_le _) as [|k ks IH]; [done|].
  rewrite !fmap_cons. simpl. by rewrite IH.
Qed.

Lemma elem_of_group_keys df k :
  k ∈ (groupby_team_year df).*1 ↔ ∃ s, s ∈ df ∧ group_key s = Some k.
Proof.
  rewrite group_keys, merge_sort_Permutation, elem_of_drop_duplicates.
  apply list_elem_of_omap.
Qed.

Lemma NoDup_group_keys df : NoDup (groupby_team_year df).*1.
Proof.
  rewrite group_keys, merge_sort_Permutation. apply NoDup_drop_duplicates.
Qed.

Lemma elem_of_groupby df k g :
  (k, g) ∈ groupby_team_year df ↔
  g = filter (λ s, group_key s = Some k) df ∧ ∃ s, s ∈ df ∧ group_key s = Some k.
Proof.
  rewrite <- elem_of_group_keys. unfold groupby_team_year.
  rewrite list_elem_of_fmap. split.
  - intros (k' & Heq & Hin). simplify_eq. split; [done|].
    apply list_elem_of_fmap. eexists (_, _). split; [|apply list_elem_of_fmap; eauto].
    done.
  - intros [-> Hin]. apply list_elem_of_fmap in Hin as ([k' g'] & Hk & Hin).
    simpl in Hk. subst k'. apply list_elem_of_fmap in Hin as (k' & Heq & Hin).
    simplify_eq. eauto.
Qed.

(** The merge gives every row exactly one id: names are distinct in the
    nodes table, and every name of the frame is in it. *)
Lemma coach_imap_elem (g : nat → option string → NodeRow) l nd :
  (∀ i n, coach (g i n) = n) → nd ∈ imap g l → coach nd ∈ l.
Proof.
  intros Hg. revert g Hg. induction l as [|a l IH]; intros g Hg Hin; simpl in Hin.
  - by apply elem_of_nil in Hin.
  - apply elem_of_cons in Hin as [->|Hin].
    + rewrite Hg. by left.
    + right. apply (IH (g ∘ S)); [|done]. intros i n. apply Hg.
Qed.

Lemma filter_coach_imap (g : nat → option string → NodeRow) l x :
  (∀ i n, coach (g i n) = n) → NoDup l → x ∈ l →
  ∃ nd, filter (λ nd, coach nd = x) (imap g l) = [nd].
Proof.
  intros Hg Hnd. revert g Hg. induction Hnd as [|a l Ha Hnd IH]; intros g Hg Hx.
  - by apply elem_of_nil in Hx.
  - simpl. destruct (decide (a = x)) as [->|Hne].
    + exists (g 0%nat x). rewrite filter_cons_True by apply Hg. f_equal.
      apply filter_none. intros nd Hin Hc. apply Ha. rewrite <- Hc.
      apply (coach_imap_elem (g ∘ S)); [|done]. intros i n. apply Hg.
    + rewrite filter_cons_False by (by rewrite Hg).
      apply (IH (g ∘ S)).
      * intros i n. apply Hg.
      * apply elem_of_cons in Hx as [->|Hx]; done.
Qed.

Lemma merge_row_annotate df r :
  r ∈ df →
  merge_row (make_nodes df) r = [annotate (make_nodes df) r]
  ∧ is_Some (coach_id_of (make_nodes df) (Name r)).
Proof.
  intros Hr. unfold merge_row, annotate, coach_id_of.
  destruct (filter_coach_imap
              (λ i n, {| coach := n; node_coach_id := Z.of_nat i + 1 |})
              (drop_duplicates (Name <$> df)) (Name r)) as [nd Hnd].
  - done.
  - apply NoDup_drop_duplicates.
  - apply elem_of_drop_duplicates, list_elem_of_fmap. eauto.
  - unfold make_nodes. rewrite Hnd. simpl. eauto.
Qed.

Lemma prepare_annotate raw :
  prepare raw
  = annotate (make_nodes (filter (λ r, eligible r) raw)) <$> filter (λ r, eligible r) raw.
Proof.
  unfold prepare, eligible.
  set (df := filter _ raw). 
  assert (Hgen : ∀ l, (∀ r, r ∈ l → r ∈ df) →
            l ≫= merge_row (make_nodes df) = annotate (make_nodes df) <$> l).
  { induction l as [|r l IH]; intros Hsub; [done|].
    rewrite bind_cons, fmap_cons, IH by (intros; apply Hsub; by right).
    destruct (merge_row_annotate df r) as [-> _]; [apply Hsub; by left|]. done. }
  by apply Hgen.
Qed.

Lemma elem_of_prepare raw s :
  s ∈ prepare raw ↔
  ∃ r, r ∈ raw ∧ eligible r ∧ s = annotate (make_nodes (filter (λ r, eligible r) raw)) r.
Proof.
  rewrite prepare_annotate, list_elem_of_fmap. split.
  - intros (r & -> & Hr). apply list_elem_of_filter in Hr as [? ?]. eauto.
  - intros (r & Hr & He & ->). exists r. split; [done|].
    apply list_elem_of_filter. done.
Qed.

(** The test of the loop body, read on the cells. *)
Lemma supervises_iff (src tgt : StaffRow) :
  supervises src tgt ↔
  (∃ a b, hierarchy_level src = Some a ∧ hierarchy_level tgt = Some b ∧ a < b)
  ∧ (role_category (base src) = Some "Head Coach"
     ∨ (side_of_ball (base src) = side_of_ball (base tgt)
        ∧ is_Some (side_of_ball (base src)))).
Proof.
  unfold supervises. rewrite <- cell_lt_true.
  assert (Hhc : cell_eq (role_category (base src)) (Some "Head Coach") = true
                ↔ role_category (base src) = Some "Head Coach").
  { rewrite cell_eq_true. split; [by intros [? _]|]. intros ->. eauto. }
  rewrite <- Hhc, <- cell_eq_true.
  destruct (cell_lt _ _); [|split; [intros []|intros [? _]; done]].
  destruct (cell_eq (role_category _) _); simpl.
  - split; [intros _; split; [done|by left]|done].
  - destruct (cell_eq (side_of_ball _) _); simpl.
    + split; [intros _; split; [done|by right]|done].
    + split; [intros []|]. intros [_ [?|?]]; done.
Qed.

(** A merged row is the annotation of a row of the roster. *)
Lemma group_rows_annotated raw k g s :
  (k, g) ∈ groupby_team_year (prepare raw) → s ∈ g →
  ∃ r, r ∈ raw ∧ eligible r ∧ in_team_season k r
       ∧ s = annotate (make_nodes (filter (λ r, eligible r) raw)) r.
Proof.
  intros [-> _]%elem_of_groupby [Hk Hs]%list_elem_of_filter.
  apply elem_of_prepare in Hs as (r & Hr & He & ->).
  exists r. repeat split; try done; unfold group_key in Hk; simpl in Hk;
    destruct (Team r), (Year r); simplify_eq/=; done.
Qed.

Lemma annotated_in_group raw k r :
  r ∈ raw → eligible r → in_team_season k r →
  let s := annotate (make_nodes (filter (λ r, eligible r) raw)) r in
  s ∈ filter (λ s, group_key s = Some k) (prepare raw)
  ∧ (k, filter (λ s, group_key s = Some k) (prepare raw))
      ∈ groupby_team_year (prepare raw).
Proof.
  intros Hr He [Ht Hy] s.
  assert (Hs : s ∈ prepare raw) by (apply elem_of_prepare; eauto).
  assert (Hk : group_key s = Some k).
  { unfold group_key. simpl. rewrite Ht, Hy. by destruct k. }
  split.
  - by apply list_elem_of_filter.
  - apply elem_of_groupby. eauto.
Qed.




(** *** Co-staff edges *)

Lemma group_key_annotate nodes r k :
  group_key (annotate nodes r) = Some k ↔ in_team_season k r.
Proof.
  unfold group_key, in_team_season. simpl. destruct k as [t y]. simpl.
  destruct (Team r), (Year r); simpl; split; try done;
    try (intros [? ?]; done); try (intros ?; simplify_eq; done).
  intros [? ?]. by simplify_eq.
Qed.

Lemma length_group raw k :
  length (filter (λ s, group_key s = Some k) (prepare raw))
  = length (filter (λ r, eligible r ∧ in_team_season k r) raw).
Proof.
  rewrite prepare_annotate. generalize (make_nodes (filter (λ r, eligible r) raw)).
  intros nodes. induction raw as [|r raw IH]; [done|].
  destruct (eligible r) eqn:E.
  - rewrite (filter_cons_True (λ r, Is_true (eligible r))) by (by rewrite E).
    rewrite fmap_cons. destruct (decide (in_team_season k r)) as [Hk|Hk].
    + rewrite filter_cons_True by (by apply group_key_annotate).
      rewrite (filter_cons_True (λ r, eligible r ∧ in_team_season k r))
        by (by rewrite E).
      simpl. by rewrite IH.
    + rewrite filter_cons_False by (by rewrite group_key_annotate).
      rewrite (filter_cons_False (λ r, eligible r ∧ in_team_season k r))
        by (by intros [_ ?]).
      done.
  - rewrite (filter_cons_False (λ r, Is_true (eligible r)))
      by (rewrite E; by intros []).
    rewrite (filter_cons_False (λ r, eligible r ∧ in_team_season k r))
      by (rewrite E; by intros [[] _]).
    done.
Qed.

Lemma costaff_edges_of_team_season df k :
  filter (λ e, (cs_team e, cs_year e) = k) (costaff_edges df)
  = (λ p, costaff_edge k p.1 p.2)
      <$> nested_pairs (filter (λ s, group_key s = Some k) df).
Proof.
  rewrite costaff_edges_bind. unfold groupby_team_year. rewrite list_fmap_bind.
  rewrite (filter_bind_tagged (λ e, (cs_team e, cs_year e))).
  - destruct (decide (k ∈ _)) as [Hin|Hin]; [done|].
    rewrite filter_none; [done|].
    intros s Hs Hk. apply Hin. rewrite merge_sort_Permutation.
    apply elem_of_drop_duplicates, list_elem_of_omap. eauto.
  - rewrite merge_sort_Permutation. apply NoDup_drop_duplicates.
  - intros k' e He. unfold costaff_emitted in He. simpl in He.
    apply list_elem_of_fmap in He as (p & -> & _). simpl. by destruct k'.
Qed.

Lemma costaff_edge_elem df k src tgt :
  src ∈ filter (λ s, group_key s = Some k) df →
  tgt ∈ filter (λ s, group_key s = Some k) df →
  costaff_edge k src tgt ∈ costaff_edges df.
Proof.
  intros Hs Ht.
  assert (Hin : costaff_edge k src tgt
                  ∈ filter (λ e, (cs_team e, cs_year e) = k) (costaff_edges df)).
  { rewrite costaff_edges_of_team_season. apply list_elem_of_fmap.
    exists (src, tgt). split; [done|]. by apply elem_of_nested_pairs. }
  by apply list_elem_of_filter in Hin as [_ ?].
Qed.

(** C2. The co-staff edges of a team-season are one edge for every
    ordered pair of its rows with an allowed role, in loop order and
    with no test: n rows give exactly n * n edges, and every row is
    paired with itself. *)
Theorem costaff_edges_square (raw : list RosterRow) (k : string * Z) :
  let n := length (filter (λ r, eligible r ∧ in_team_season k r) raw) in
  let g := filter (λ s, group_key s = Some k) (prepare raw) in
  let edges := costaff_edges (prepare raw) in
  length g = n
  ∧ filter (λ e, (cs_team e, cs_year e) = k) edges
    = (λ p, costaff_edge k p.1 p.2) <$> nested_pairs g
  ∧ length (filter (λ e, (cs_team e, cs_year e) = k) edges) = (n * n)%nat
  ∧ (∀ src tgt, src ∈ g → tgt ∈ g → costaff_edge k src tgt ∈ edges)
  ∧ (∀ s, s ∈ g → costaff_edge k s s ∈ edges).
Proof.
  intros n g edges.
  assert (Hn : length g = n) by apply length_group.
  assert (Hk := costaff_edges_of_team_season (prepare raw) k).
  fold g edges in Hk.
  assert (Hpair : ∀ src tgt, src ∈ g → tgt ∈ g → costaff_edge k src tgt ∈ edges).
  { intros src tgt Hs Ht. by apply costaff_edge_elem. }
  split; [done|]. split; [done|]. split.
  - by rewrite Hk, length_fmap, length_nested_pairs, Hn.
  - split; [done|]. intros s Hs. by apply Hpair.
Qed.

(** *** Rows with missing cells *)

Lemma build_edges_eligible raw raw' :
  filter (λ r, eligible r) raw = filter (λ r, eligible r) raw' →
  build_edges raw = build_edges raw'.
Proof.
  intros Heq. unfold build_edges. rewrite !prepare_annotate.
  unfold eligible in *. by rewrite Heq.
Qed.

(** C6, the input that refutes it. A position coach whose side of the
    ball is missing stays in the group of 1995 Dallas: he is paired with
    the head coach and with himself in the co-staff edges and receives
    the hierarchical edge of the head coach, so both edge lists differ
    from those of the roster without him. *)
Lemma missing_side_row_is_paired :
  let hc := {| Team := Some "DAL"; Year := Some 1995;
               role_category := Some "Head Coach"; role_subcategory := None;
               position_group := None; side_of_ball := Some "Head Coach";
               Name := Some "Barry Switzer" |} in
  let pc := {| Team := Some "DAL"; Year := Some 1995;
               role_category := Some "Position Coach - Offense";
               role_subcategory := None; position_group := Some "OL";
               side_of_ball := None; Name := Some "Hudson Houck" |} in
  let raw := [hc; pc] in
  ¬ complete pc
  ∧ filter complete raw = [hc]
  ∧ length (costaff_edges (prepare raw)) = 4%nat
  ∧ length (costaff_edges (prepare (filter complete raw))) = 1%nat
  ∧ length (hierarchical_edges (prepare raw)) = 1%nat
  ∧ length (hierarchical_edges (prepare (filter complete raw))) = 0%nat
  ∧ costaff_edges (prepare raw) ≠ costaff_edges (prepare (filter complete raw))
  ∧ hierarchical_edges (prepare raw)
    ≠ hierarchical_edges (prepare (filter complete raw)).
Proof.
  intros hc pc raw.
  split; [by intros (_ & [? ?] & _)|].
  split; [by vm_compute|].
  split; [by vm_compute|]. split; [by vm_compute|].
  split; [by vm_compute|]. split; [by vm_compute|].
  split; intros Heq; apply (f_equal length) in Heq; vm_compute in Heq; done.
Qed.

(** C6, as the script behaves. Edge construction is a total function of
    the roster. A row whose role is missing is as if absent: the three
    tables are those of the roster without it. Every row of a group has
    its role, and its team and year are those of the group, so a row
    missing its team or its year is in no pair. A row with an allowed
    role, a team and a year is in its group whatever its side of the ball
    and its name, missing or not: it has a coach id and is paired with
    itself and with every row of the group in the co-staff edges. *)
Theorem missing_cells_handling (raw : list RosterRow) :
  build_edges raw = build_edges (filter (λ r, is_Some (role_category r)) raw)
  ∧ (∀ k g s, (k, g) ∈ groupby_team_year (prepare raw) → s ∈ g →
       is_Some (role_category (base s))
       ∧ Team (base s) = Some k.1 ∧ Year (base s) = Some k.2)
  ∧ (∀ r k, r ∈ raw → eligible r → in_team_season k r →
       ∃ s g, base s = r ∧ is_Some (coach_id s)
         ∧ (k, g) ∈ groupby_team_year (prepare raw) ∧ s ∈ g
         ∧ ∀ t, t ∈ g →
             costaff_edge k s t ∈ costaff_edges (prepare raw)
             ∧ costaff_edge k t s ∈ costaff_edges (prepare raw)).
Proof.
  split; [|split].
  - apply build_edges_eligible. rewrite list_filter_filter.
    apply list_filter_iff. intros r. split; [|by intros [? _]].
    intros He. split; [done|]. unfold eligible in He.
    apply Is_true_true, isin_true in He as (x & -> & _). eauto.
  - intros k g s Hg Hs.
    destruct (group_rows_annotated raw k g s Hg Hs) as (r & _ & He & [Ht Hy] & ->).
    simpl. split; [|done]. unfold eligible in He.
    apply Is_true_true, isin_true in He as (x & -> & _). eauto.
  - intros r k Hr He Hk.
    destruct (annotated_in_group raw k r Hr He Hk) as [Hs Hg].
    eexists _, _. split; [|split; [|split; [exact Hg|split; [exact Hs|]]]].
    + done.
    + simpl. apply (merge_row_annotate (filter (λ r, eligible r) raw) r).
      by apply list_elem_of_filter.
    + intros t Ht. split; by apply costaff_edge_elem.
Qed.

End EdgeBuilderFacts.

(** ** Column-name negotiation *)

Module SchemaFacts.
Import Schema.

Lemma has_column_true c columns : has_column c columns = true ↔ c ∈ columns.
Proof. unfold has_column. apply bool_decide_eq_true. Qed.

Lemma has_column_false c columns : has_column c columns = false ↔ c ∉ columns.
Proof. unfold has_column. apply bool_decide_eq_false. Qed.

(** C8, the input that refutes it. A frame that has both accepted pairs
    of endpoint columns, and a nodes frame that has both identity
    columns, are loaded: the first pair of each wins. *)
Lemma both_pairs_are_loaded :
  detect_edge_columns ["from"; "to"; "source"; "target"; "year"]
    = Loaded ("from", "to")
  ∧ detect_node_columns ["id"; "coach_id"; "coach"] = Loaded ("coach_id", "coach")
  ∧ detect_columns ["from"; "to"; "source"; "target"; "year"]
                   ["id"; "coach_id"; "coach"]
    = Loaded {| source_col := "from"; target_col := "to";
                id_col := "coach_id"; label_col := "coach" |}.
Proof. repeat split; by vm_compute. Qed.

(** C8, as the script behaves. The endpoint columns are [from]/[to] when
    both are present, also when [source]/[target] are present as well,
    else [source]/[target] when both are present; the identity column is
    [coach_id] when present, also when [id] is present as well, and [id]
    is used only when [coach_id] is absent. The run is stopped with the
    schema message, and no columns are returned, exactly when no
    endpoint pair or no identity column is present; otherwise the
    columns are returned. *)
Theorem column_negotiation (edge_columns node_columns : list string) :
  let from_to := "from" ∈ edge_columns ∧ "to" ∈ edge_columns in
  let source_target := "source" ∈ edge_columns ∧ "target" ∈ edge_columns in
  (detect_edge_columns edge_columns = Loaded ("from", "to") ↔ from_to)
  ∧ (detect_edge_columns edge_columns = Loaded ("source", "target")
     ↔ ¬ from_to ∧ source_target)
  ∧ ((∃ msg, detect_edge_columns edge_columns = Stopped msg)
     ↔ ¬ from_to ∧ ¬ source_target)
  ∧ ((∃ l, detect_node_columns node_columns = Loaded ("coach_id", l))
     ↔ "coach_id" ∈ node_columns)
  ∧ ((∃ l, detect_node_columns node_columns = Loaded ("id", l))
     ↔ ("coach_id" ∉ node_columns) ∧ "id" ∈ node_columns)
  ∧ ((∃ msg, detect_node_columns node_columns = Stopped msg)
     ↔ ("coach_id" ∉ node_columns) ∧ ("id" ∉ node_columns))
  ∧ ((∃ msg, detect_columns edge_columns node_columns = Stopped msg)
     ↔ (¬ from_to ∧ ¬ source_target)
       ∨ (("coach_id" ∉ node_columns) ∧ ("id" ∉ node_columns)))
  ∧ (∀ c, detect_columns edge_columns node_columns = Loaded c →
       ((source_col c, target_col c) = ("from", "to")
        ∨ (source_col c, target_col c) = ("source", "target"))
       ∧ (id_col c = "coach_id" ∨ id_col c = "id"))
  ∧ (from_to → source_target →
       detect_edge_columns edge_columns = Loaded ("from", "to")
       ∧ detect_edge_columns edge_columns ≠ Loaded ("source", "target"))
  ∧ ("coach_id" ∈ node_columns →
       detect_node_columns node_columns
       = Loaded ("coach_id",
                 if has_column "coach" node_columns then "coach" else "coach_id"))
  ∧ ("coach_id" ∈ node_columns → "id" ∈ node_columns →
       ∀ l, detect_node_columns node_columns ≠ Loaded ("id", l))
  ∧ (("coach_id" ∉ node_columns) → "id" ∈ node_columns →
       detect_node_columns node_columns
       = Loaded ("id", if has_column "label" node_columns then "label" else "id"))
  ∧ ((∃ c, detect_columns edge_columns node_columns = Loaded c)
     ↔ (from_to ∨ source_target)
       ∧ ("coach_id" ∈ node_columns ∨ "id" ∈ node_columns))
  ∧ (∀ c, detect_columns edge_columns node_columns = Loaded c →
       (from_to → source_col c = "from" ∧ target_col c = "to")
       ∧ (¬ from_to → source_col c = "source" ∧ target_col c = "target")
       ∧ ("coach_id" ∈ node_columns → id_col c = "coach_id")
       ∧ (("coach_id" ∉ node_columns) → id_col c = "id")).
Proof.
  intros from_to source_target. subst from_to source_target.
  unfold detect_columns, detect_edge_columns, detect_node_columns.
  destruct (has_column "from" edge_columns) eqn:Hf,
    (has_column "to" edge_columns) eqn:Ht,
    (has_column "source" edge_columns) eqn:Hs,
    (has_column "target" edge_columns) eqn:Hg,
    (has_column "coach_id" node_columns) eqn:Hc,
    (has_column "id" node_columns) eqn:Hi;
    rewrite ?has_column_true, ?has_column_false in *;
    simpl; repeat split; intros; simplify_eq/=;
    try tauto; try discriminate; try done; try (eexists; reflexivity);
    try naive_solver.
Qed.

(** Both endpoint pairs and both identity columns present: [from]/[to]
    and [coach_id] are used. *)
Lemma column_negotiation_witness :
  detect_edge_columns ["source"; "target"; "from"; "to"] = Loaded ("from", "to")
  ∧ detect_node_columns ["id"; "label"; "coach_id"] = Loaded ("coach_id", "coach_id")
  ∧ ∀ l, detect_node_columns ["id"; "label"; "coach_id"] ≠ Loaded ("id", l).
Proof.
  destruct (column_negotiation ["source"; "target"; "from"; "to"]
                               ["id"; "label"; "coach_id"])
    as (_ & _ & _ & _ & _ & _ & _ & _ & Hboth & Hcoach & Hnot & _).
  split; [|split].
  - apply Hboth; split; set_solver.
  - rewrite Hcoach by set_solver. reflexivity.
  - apply Hnot; set_solver.
Defined.

End SchemaFacts.

(** ** The graph and the view *)

Module NetworkAppFacts.
Import NetworkApp.

Section graph_facts.
Context {K : Type} `{Countable K}.
Implicit Types (G : DiGraph K) (rows : list (EdgeRow K)) (n x u v : K).

Lemma elem_of_endpoints rows n :
  n ∈ endpoints rows ↔ ∃ e, e ∈ rows ∧ (source e = n ∨ target e = n).
Proof.
  unfold endpoints.
  rewrite elem_of_union, !elem_of_list_to_set, !list_elem_of_fmap. naive_solver.
Qed.

Lemma elem_of_successors_of rows n x :
  x ∈ successors_of rows n ↔ ∃ e, e ∈ rows ∧ source e = n ∧ target e = x.
Proof.
  unfold successors_of. rewrite elem_of_list_to_set, list_elem_of_fmap.
  split.
  - intros (e & -> & [? ?]%list_elem_of_filter). eauto.
  - intros (e & ? & ? & <-). exists e. split; [done|].
    by apply list_elem_of_filter.
Qed.

Lemma elem_of_predecessors_of rows n x :
  x ∈ predecessors_of rows n ↔ ∃ e, e ∈ rows ∧ target e = n ∧ source e = x.
Proof.
  unfold predecessors_of. rewrite elem_of_list_to_set, list_elem_of_fmap.
  split.
  - intros (e & -> & [? ?]%list_elem_of_filter). eauto.
  - intros (e & ? & ? & <-). exists e. split; [done|].
    by apply list_elem_of_filter.
Qed.

Lemma elem_of_neighbours_of rows n x :
  x ∈ neighbours_of rows n ↔
  ∃ e, e ∈ rows ∧ ((source e = n ∧ target e = x) ∨ (target e = n ∧ source e = x)).
Proof.
  unfold neighbours_of.
  rewrite elem_of_union, elem_of_successors_of, elem_of_predecessors_of.
  naive_solver.
Qed.

Lemma neighbours_of_endpoints rows n : neighbours_of rows n ⊆ endpoints rows.
Proof.
  intros x. rewrite elem_of_neighbours_of, elem_of_endpoints. naive_solver.
Qed.

Lemma graph_with_empty : graph_with (K:=K) ∅ (λ _, ∅) (λ _, ∅) empty_graph.
Proof.
  split; [done|]. split; intros n; simpl; rewrite lookup_empty;
    by rewrite decide_False by set_solver.
Qed.

Lemma graph_with_add_node N (S P : K → gset K) G x :
  graph_with N S P G → (x ∉ N → S x = ∅ ∧ P x = ∅) →
  graph_with ({[x]} ∪ N) S P (add_node_if_new x G).
Proof.
  intros (HN & HS & HP) Hx. unfold add_node_if_new.
  destruct (decide (x ∈ node G)) as [Hin|Hin].
  - rewrite HN in Hin.
    assert (HNx : {[x]} ∪ N = N) by set_solver. rewrite HNx. done.
  - rewrite HN in Hin. destruct (Hx Hin) as [HSx HPx].
    split; [simpl; by rewrite HN|]. split; intros n; simpl.
    + destruct (decide (n = x)) as [->|Hne].
      * rewrite lookup_insert_eq, decide_True by set_solver. by rewrite HSx.
      * rewrite lookup_insert_ne by done. rewrite HS.
        destruct (decide (n ∈ N)).
        -- by rewrite decide_True by set_solver.
        -- by rewrite decide_False by set_solver.
    + destruct (decide (n = x)) as [->|Hne].
      * rewrite lookup_insert_eq, decide_True by set_solver. by rewrite HPx.
      * rewrite lookup_insert_ne by done. rewrite HP.
        destruct (decide (n ∈ N)).
        -- by rewrite decide_True by set_solver.
        -- by rewrite decide_False by set_solver.
Qed.

Lemma graph_with_add_edge N (S P : K → gset K) G u v :
  graph_with N S P G → (∀ n, n ∉ N → S n = ∅ ∧ P n = ∅) →
  graph_with ({[v]} ∪ ({[u]} ∪ N))
             (λ n, if decide (n = u) then {[v]} ∪ S n else S n)
             (λ n, if decide (n = v) then {[u]} ∪ P n else P n)
             (add_edge u v G).
Proof.
  intros HG Hout.
  assert (HG1 : graph_with ({[v]} ∪ ({[u]} ∪ N)) S P
                           (add_node_if_new v (add_node_if_new u G))).
  { apply graph_with_add_node; [apply graph_with_add_node; [done|]|].
    - intros ?. by apply Hout.
    - intros ?. apply Hout. set_solver. }
  destruct HG1 as (HN & HS & HP). unfold add_edge.
  split; [done|]. split; intros n; simpl.
  - destruct (decide (n = u)) as [->|Hne].
    + rewrite lookup_alter_eq, HS. by destruct (decide _).
    + rewrite lookup_alter_ne by done. by rewrite HS.
  - destruct (decide (n = v)) as [->|Hne].
    + rewrite lookup_alter_eq, HP. by destruct (decide _).
    + rewrite lookup_alter_ne by done. by rewrite HP.
Qed.

Lemma graph_with_ext N N' (S S' P P' : K → gset K) G :
  N = N' → (∀ n, S n = S' n) → (∀ n, P n = P' n) →
  graph_with N S P G → graph_with N' S' P' G.
Proof.
  intros <- HS HP (HN & HGS & HGP). split; [done|].
  split; intros n; [rewrite <- HS|rewrite <- HP]; done.
Qed.

(** The graph built from the edge rows has their endpoints as nodes
    and, for every node, the targets of its rows as successors and the
    sources of its rows as predecessors. *)
Lemma from_pandas_edgelist_graph rows :
  graph_with (endpoints rows) (successors_of rows) (predecessors_of rows)
             (from_pandas_edgelist rows).
Proof.
  induction rows as [|e rows IH] using rev_ind.
  - apply graph_with_empty.
  - unfold from_pandas_edgelist. rewrite foldl_app. simpl.
    fold (from_pandas_edgelist rows).
    eapply graph_with_ext;
      [| | |apply (graph_with_add_edge _ _ _ _ (source e) (target e) IH)].
    + apply set_eq. intros n.
      rewrite !elem_of_union, !elem_of_singleton, !elem_of_endpoints.
      setoid_rewrite elem_of_app. setoid_rewrite list_elem_of_singleton.
      naive_solver.
    + intros n. apply set_eq. intros x. destruct (decide (n = source e)) as [->|Hne].
      * rewrite elem_of_union, elem_of_singleton, !elem_of_successors_of.
        setoid_rewrite elem_of_app. setoid_rewrite list_elem_of_singleton.
        naive_solver.
      * rewrite !elem_of_successors_of.
        setoid_rewrite elem_of_app. setoid_rewrite list_elem_of_singleton.
        naive_solver.
    + intros n. apply set_eq. intros x. destruct (decide (n = target e)) as [->|Hne].
      * rewrite elem_of_union, elem_of_singleton, !elem_of_predecessors_of.
        setoid_rewrite elem_of_app. setoid_rewrite list_elem_of_singleton.
        naive_solver.
      * rewrite !elem_of_predecessors_of.
        setoid_rewrite elem_of_app. setoid_rewrite list_elem_of_singleton.
        naive_solver.
    + intros n Hn. split; apply set_eq; intros x;
        rewrite ?elem_of_successors_of, ?elem_of_predecessors_of;
        rewrite elem_of_endpoints in Hn; set_solver.
Qed.

End graph_facts.

Section connected_facts.
Context {K : Type} `{Countable K}.
Implicit Types (rows : list (EdgeRow K)) (n x f : K) (c : gset K).

Lemma node_graph rows : node (from_pandas_edgelist rows) = endpoints rows.
Proof. apply (from_pandas_edgelist_graph rows). Qed.

Lemma successors_graph rows n :
  successors (from_pandas_edgelist rows) n
  = if decide (n ∈ endpoints rows) then Some (successors_of rows n) else None.
Proof. apply (from_pandas_edgelist_graph rows). Qed.

Lemma predecessors_graph rows n :
  predecessors (from_pandas_edgelist rows) n
  = if decide (n ∈ endpoints rows) then Some (predecessors_of rows n) else None.
Proof. apply (from_pandas_edgelist_graph rows). Qed.

Lemma neighbours_of_outside rows n : n ∉ endpoints rows → neighbours_of rows n = ∅.
Proof.
  intros Hn. apply set_eq. intros x. rewrite elem_of_neighbours_of.
  rewrite elem_of_endpoints in Hn. set_solver.
Qed.

Lemma update_with_neighbours_graph rows c n :
  n ∈ endpoints rows →
  update_with_neighbours (from_pandas_edgelist rows) c n
  = Some (c ∪ neighbours_of rows n).
Proof.
  intros Hn. unfold update_with_neighbours.
  rewrite successors_graph, predecessors_graph, !decide_True by done.
  simpl. unfold neighbours_of. by rewrite (assoc_L (∪)).
Qed.

(** The loop over the first hop: every node met is in the graph, so no
    step raises, and the unions accumulate. *)
Lemma for_each_neighbours rows (l : list K) c :
  (∀ n, n ∈ l → n ∈ endpoints rows) →
  for_each (update_with_neighbours (from_pandas_edgelist rows)) l c
  = Some (c ∪ ⋃ (neighbours_of rows <$> l)).
Proof.
  unfold for_each. revert c. induction l as [|n l IH]; intros c Hl.
  - simpl. f_equal. set_solver.
  - cbn [foldl]. simpl.
    rewrite update_with_neighbours_graph by (apply Hl; by left).
    rewrite IH by (intros; apply Hl; by right).
    f_equal. by rewrite (assoc_L (∪)).
Qed.

(** The loop over the community members, which skips the members that
    are not in the graph. *)
Lemma for_each_members rows (l : list K) c :
  for_each (λ c n, if decide (n ∈ node (from_pandas_edgelist rows))
                   then update_with_neighbours (from_pandas_edgelist rows) c n
                   else Some c) l c
  = Some (c ∪ ⋃ (neighbours_of rows <$> l)).
Proof.
  unfold for_each. revert c. induction l as [|n l IH]; intros c.
  - simpl. f_equal. set_solver.
  - cbn [foldl]. simpl.
    destruct (decide (n ∈ node (from_pandas_edgelist rows))) as [Hn|Hn];
      rewrite node_graph in Hn.
    + rewrite update_with_neighbours_graph by done. rewrite IH.
      f_equal. by rewrite (assoc_L (∪)).
    + rewrite IH. f_equal.
      rewrite neighbours_of_outside by done. set_solver.
Qed.

Lemma individual_nodes_graph rows f (depth : option Z) :
  f ∈ endpoints rows →
  individual_nodes (from_pandas_edgelist rows) f depth
  = Some (if bool_decide (depth = Some 1)
          then {[f]} ∪ neighbours_of rows f
          else {[f]} ∪ neighbours_of rows f
               ∪ ⋃ (neighbours_of rows <$> elements (neighbours_of rows f))).
Proof.
  intros Hf. unfold individual_nodes. destruct (bool_decide (depth = Some 1)).
  - by apply update_with_neighbours_graph.
  - rewrite successors_graph, predecessors_graph, !decide_True by done.
    simpl. fold (neighbours_of rows f). apply for_each_neighbours.
    intros n Hn%elem_of_elements. by apply (neighbours_of_endpoints rows f).
Qed.

Lemma community_nodes_view_graph rows (members : list K) (ext : bool) :
  community_nodes_view (from_pandas_edgelist rows) members ext
  = Some (if ext
          then list_to_set members ∪ ⋃ (neighbours_of rows <$> members)
          else list_to_set members).
Proof.
  unfold community_nodes_view. destruct ext; [|done]. apply for_each_members.
Qed.

(** No selection makes the resolution raise. *)
Lemma connected_nodes_total rows (sel : Selection K) (w : Widgets) :
  is_Some (connected_nodes (from_pandas_edgelist rows) sel w).
Proof.
  unfold connected_nodes. destruct (filter_mode sel).
  - destruct (selected_node sel) as [n|]; [|eauto].
    case_bool_decide as Hn; [|eauto]. rewrite node_graph in Hn.
    rewrite individual_nodes_graph by done. simpl. eauto.
  - destruct (community_nodes sel) as [[|m ms]|]; eauto.
    rewrite community_nodes_view_graph. simpl. eauto.
Qed.

(** The three branches of the selection, each with what it selects. *)
Lemma connected_nodes_cases rows (sel : Selection K) (w : Widgets) :
  ∃ c wn, connected_nodes (from_pandas_edgelist rows) sel w = Some (c, wn)
    ∧ (∀ f, filter_mode sel = IndividualNode → selected_node sel = Some f →
            f ∈ endpoints rows →
            wn = None
            ∧ c = if bool_decide (connection_depth sel = Some 1)
                  then {[f]} ∪ neighbours_of rows f
                  else {[f]} ∪ neighbours_of rows f
                       ∪ ⋃ (neighbours_of rows <$> elements (neighbours_of rows f)))
    ∧ (∀ members, filter_mode sel = Community →
            community_nodes sel = Some members → members ≠ [] →
            wn = None
            ∧ c = if include_external_checkbox w
                  then list_to_set members ∪ ⋃ (neighbours_of rows <$> members)
                  else list_to_set members)
    ∧ (∀ f, filter_mode sel = IndividualNode → selected_node sel = Some f →
            f ∉ endpoints rows →
            wn = Some (NodeNotFound (Some f)) ∧ c = endpoints rows).
Proof.
  unfold connected_nodes. destruct (filter_mode sel) eqn:Hmode.
  - destruct (selected_node sel) as [n|] eqn:Hsel.
    + case_bool_decide as Hn; rewrite node_graph in Hn.
      * rewrite individual_nodes_graph by done. simpl. eexists _, _.
        split; [done|]. split; [|split].
        -- intros f _ [= <-] _. done.
        -- intros members [=].
        -- intros f _ [= <-] Hf. done.
      * simpl. eexists _, _. split; [done|]. split; [|split].
        -- intros f _ [= <-] Hf. done.
        -- intros members [=].
        -- intros f _ [= <-] _. by rewrite node_graph.
    + simpl. eexists _, _. split; [done|]. split; [|split].
      * intros f _ [=].
      * intros members [=].
      * intros f _ [=].
  - destruct (community_nodes sel) as [[|m ms]|] eqn:Hcn.
    + simpl. eexists _, _. split; [done|]. split; [|split].
      * intros f [=].
      * intros members _ [= <-] Hne. done.
      * intros f [=].
    + rewrite community_nodes_view_graph. simpl. eexists _, _.
      split; [done|]. split; [|split].
      * intros f [=].
      * intros members _ [= <-] _. done.
      * intros f [=].
    + simpl. eexists _, _. split; [done|]. split; [|split].
      * intros f [=].
      * intros members _ [=].
      * intros f [=].
Qed.

End connected_facts.

Section facet_facts.
Context {K : Type} `{Countable K}.
Implicit Types (rows : list (EdgeRow K)) (n x f : K) (c : gset K).

Lemma facet_selected {A} `{EqDecision A} (hc : bool) (options : list A)
    (ms : list A → list A) (cell : EdgeRow K → option A) rows :
  (facet hc options ms cell rows).1
  = if hc && bool_decide (0 < length options)%nat then Some (ms options) else None.
Proof.
  unfold facet. destruct hc; [|done]. simpl.
  destruct (bool_decide _); [|done]. by destruct (ms options).
Qed.

Lemma facet_rows {A} `{EqDecision A} (hc : bool) (options : list A)
    (ms : list A → list A) (cell : EdgeRow K → option A) rows :
  (facet hc options ms cell rows).2
  = filter (λ e, passes (facet hc options ms cell rows).1 (cell e)) rows.
Proof.
  unfold facet. destruct hc; [|by rewrite filter_all].
  destruct (bool_decide _); [|by rewrite filter_all].
  destruct (ms options); [by rewrite filter_all|done].
Qed.

Lemma endpoints_in_iff c (e : EdgeRow K) :
  endpoints_in c e ↔ source e ∈ c ∧ target e ∈ c.
Proof.
  unfold endpoints_in. rewrite andb_True, !bool_decide_spec. done.
Qed.

(** The view, field by field. *)
Lemma resolve_view_fields (edges : EdgeFrame K) (nodes : list (NodeRow K))
    (sel : Selection K) (w : Widgets) c wn :
  connected_nodes (from_pandas_edgelist (edge_rows edges)) sel w = Some (c, wn) →
  ∃ v, resolve_view edges nodes sel w = Some v
    ∧ view_connected_nodes v = c
    ∧ view_warning v = wn
    ∧ let E0 := filter (λ e, endpoints_in c e) (edge_rows edges) in
      let E1 := filter (λ e, passes (selected_years v) (year e)) E0 in
      selected_years v
        = (if has_year_column edges && bool_decide (0 < length (sorted_years E0))%nat
           then Some (year_multiselect w (sorted_years E0)) else None)
      ∧ selected_teams v
        = (if has_team_column edges && bool_decide (0 < length (sorted_teams E1))%nat
           then Some (team_multiselect w (sorted_teams E1)) else None)
      ∧ edges_df v = filter (λ e, passes (selected_teams v) (team e)) E1
      ∧ nodes_in_edges v = endpoints (edges_df v)
      ∧ nodes_df v = filter (λ r, id r ∈ nodes_in_edges v) nodes.
Proof.
  intros Hc. unfold resolve_view. rewrite Hc. simpl.
  eexists. split; [done|]. unfold filter_view. simpl.
  split; [done|]. split; [done|].
  rewrite <- !facet_rows.
  split; [apply facet_selected|].
  split; [apply facet_selected|].
  split; [done|]. split; [done|].
  apply list_filter_iff. intros r. apply bool_decide_spec.
Qed.

Lemma resolve_view_inv (edges : EdgeFrame K) (nodes : list (NodeRow K))
    (sel : Selection K) (w : Widgets) (v : View K) :
  resolve_view edges nodes sel w = Some v →
  ∃ c wn,
    connected_nodes (from_pandas_edgelist (edge_rows edges)) sel w = Some (c, wn)
    ∧ v = filter_view edges nodes w c wn.
Proof.
  unfold resolve_view. intros Hv.
  destruct (connected_nodes _ sel w) as [[c wn]|]; [|done].
  simpl in Hv. exists c, wn. split; [done|]. by simplify_eq.
Qed.

Lemma resolve_view_total (edges : EdgeFrame K) (nodes : list (NodeRow K))
    (sel : Selection K) (w : Widgets) :
  is_Some (resolve_view edges nodes sel w).
Proof.
  destruct (connected_nodes_total (edge_rows edges) sel w) as [[c wn] Hc].
  destruct (resolve_view_fields edges nodes sel w c wn Hc) as (v & -> & _). eauto.
Qed.

Lemma passes_true_iff {A} `{EqDecision A} (selected : option (list A)) (cell : option A) :
  passes selected cell
  ↔ ∀ a l, selected = Some (a :: l) → ∃ y, cell = Some y ∧ y ∈ a :: l.
Proof.
  unfold passes. destruct selected as [[|a l]|].
  - split; [intros _ ? ? ?; done|done].
  - rewrite Is_true_true, isin_true. split.
    + intros Hy ? ? ?. by simplify_eq.
    + intros Hy. by apply Hy.
  - split; [intros _ ? ? ?; done|done].
Qed.

End facet_facts.

Section view_claims.
Context {K : Type} `{Countable K}.
Implicit Types (edges : EdgeFrame K) (nodes : list (NodeRow K))
  (sel : Selection K) (w : Widgets) (v : View K) (f n x : K).

(** C3. In both modes the view exists, and its selected nodes are
    those the selection gives: for a focal node of the graph, the node
    with its first hop (and the second hop at the other depth); for a
    community with members, the members (with one hop when the box is
    ticked). The edges of the view are the rows that pass three
    restrictions in this order: both endpoints in the selected nodes;
    then the year facet, whose options come from the rows that passed
    the first and which restricts when its selection is not empty; then
    the team facet, whose options come from the rows that passed the
    first two. A row is kept when it passes all of them. The visible
    nodes are then exactly the endpoints of the rows kept, so a selected
    node, focal node or community member, that is an endpoint of none of
    them is gone. *)
Theorem facets_then_recompute edges nodes sel w :
  let rows := edge_rows edges in
  let G := from_pandas_edgelist rows in
  ∃ C wn v,
    connected_nodes G sel w = Some (C, wn)
    ∧ resolve_view edges nodes sel w = Some v
    ∧ view_connected_nodes v = C
    ∧ view_warning v = wn
    ∧ (∀ f, filter_mode sel = IndividualNode → selected_node sel = Some f →
            f ∈ node G →
            f ∈ C
            ∧ C = if bool_decide (connection_depth sel = Some 1)
                  then {[f]} ∪ neighbours_of rows f
                  else {[f]} ∪ neighbours_of rows f
                       ∪ ⋃ (neighbours_of rows <$> elements (neighbours_of rows f)))
    ∧ (∀ members, filter_mode sel = Community →
            community_nodes sel = Some members → members ≠ [] →
            list_to_set members ⊆ C
            ∧ C = if include_external_checkbox w
                  then list_to_set members ∪ ⋃ (neighbours_of rows <$> members)
                  else list_to_set members)
    ∧ let E0 := filter (λ e, source e ∈ C ∧ target e ∈ C) rows in
      let E1 := filter (λ e, passes (selected_years v) (year e)) E0 in
      let E2 := filter (λ e, passes (selected_teams v) (team e)) E1 in
      selected_years v
        = (if has_year_column edges && bool_decide (0 < length (sorted_years E0))%nat
           then Some (year_multiselect w (sorted_years E0)) else None)
      ∧ selected_teams v
        = (if has_team_column edges && bool_decide (0 < length (sorted_teams E1))%nat
           then Some (team_multiselect w (sorted_teams E1)) else None)
      ∧ edges_df v = E2
      ∧ (∀ e, e ∈ edges_df v ↔
           e ∈ rows ∧ source e ∈ C ∧ target e ∈ C
           ∧ passes (selected_years v) (year e)
           ∧ passes (selected_teams v) (team e))
      ∧ (∀ n, n ∈ nodes_in_edges v ↔
           ∃ e, e ∈ edges_df v ∧ (source e = n ∨ target e = n))
      ∧ nodes_df v = filter (λ r, id r ∈ nodes_in_edges v) nodes
      ∧ (∀ n, n ∈ C → (∀ e, e ∈ edges_df v → source e ≠ n ∧ target e ≠ n) →
           (n ∉ nodes_in_edges v) ∧ ∀ r, r ∈ nodes_df v → id r ≠ n)
      ∧ (∀ n, n ∈ C → n ∈ nodes_in_edges v ↔
           ∃ e, e ∈ rows ∧ (source e = n ∨ target e = n)
                ∧ source e ∈ C ∧ target e ∈ C
                ∧ passes (selected_years v) (year e)
                ∧ passes (selected_teams v) (team e)).
Proof.
  intros rows G. subst rows G.
  destruct (connected_nodes_cases (edge_rows edges) sel w)
    as (c & wn & Hc & Hind & Hcom & _).
  destruct (resolve_view_fields edges nodes sel w c wn Hc)
    as (v & Hv & HC & Hw & Hy & Ht & He & Hn & Hd).
  exists c, wn, v. split; [done|]. split; [done|]. split; [done|]. split; [done|].
  split; [|split].
  - intros f Hmode Hsel Hf. rewrite node_graph in Hf.
    destruct (Hind f Hmode Hsel Hf) as [_ ->]. split; [|done].
    destruct (bool_decide _); set_solver.
  - intros members Hmode Hcn Hne.
    destruct (Hcom members Hmode Hcn Hne) as [_ ->]. split; [|done].
    destruct (include_external_checkbox w); set_solver.
  - intros E0 E1 E2. subst E0 E1 E2. cbv zeta in Hy, Ht, He.
    assert (HE0 : filter (λ e, source e ∈ c ∧ target e ∈ c) (edge_rows edges)
                  = filter (λ e, endpoints_in c e) (edge_rows edges)).
    { apply list_filter_iff. intros e. by rewrite endpoints_in_iff. }
    rewrite HE0.
    assert (Hmem : ∀ n, n ∈ nodes_in_edges v ↔
              ∃ e, e ∈ edges_df v ∧ (source e = n ∨ target e = n)).
    { intros n. rewrite Hn. apply elem_of_endpoints. }
    assert (Hrow : ∀ e, e ∈ edges_df v ↔
              e ∈ edge_rows edges ∧ source e ∈ c ∧ target e ∈ c
              ∧ passes (selected_years v) (year e)
              ∧ passes (selected_teams v) (team e)).
    { intros e. rewrite He, !list_elem_of_filter, endpoints_in_iff. tauto. }
    split; [done|]. split; [done|]. split; [done|]. split; [done|].
    split; [done|]. split; [done|]. split.
    + intros n _ Hnone.
      assert (Hnot : n ∉ nodes_in_edges v).
      { rewrite Hmem. intros (e & He' & Hor). destruct (Hnone e He'). tauto. }
      split; [done|]. intros r Hr <-. rewrite Hd in Hr.
      by apply list_elem_of_filter in Hr as [? _].
    + intros n _. rewrite Hmem. split.
      * intros (e & He' & Hor). apply Hrow in He' as (? & ? & ? & ? & ?).
        exists e. done.
      * intros (e & ? & Hor & ? & ? & ? & ?). exists e. split; [|done].
        by apply Hrow.
Qed.

(** C4. In individual mode with the focal node in the graph, the
    successors and predecessors of a node are the targets and the
    sources of its edge rows; at depth 1 the selected nodes are the focal
    node, its successors and its predecessors; at any other depth (the
    widget offers 2) they are the focal node, this first hop, and the
    successors and predecessors of every node of the first hop. *)
Theorem individual_node_view edges nodes sel w f :
  filter_mode sel = IndividualNode →
  selected_node sel = Some f →
  f ∈ node (from_pandas_edgelist (edge_rows edges)) →
  let G := from_pandas_edgelist (edge_rows edges) in
  let rows := edge_rows edges in
  let H1 := successors_of rows f ∪ predecessors_of rows f in
  (∀ n, n ∈ node G →
     successors G n = Some (successors_of rows n)
     ∧ predecessors G n = Some (predecessors_of rows n))
  ∧ H1 ⊆ node G
  ∧ ∃ v, resolve_view edges nodes sel w = Some v
      ∧ view_warning v = None
      ∧ (connection_depth sel = Some 1 →
           view_connected_nodes v
           = {[f]} ∪ successors_of rows f ∪ predecessors_of rows f)
      ∧ (connection_depth sel ≠ Some 1 →
           view_connected_nodes v
           = {[f]} ∪ H1
             ∪ ⋃ ((λ h, successors_of rows h ∪ predecessors_of rows h)
                    <$> elements H1)).
Proof.
  intros Hmode Hsel Hf G rows H1. subst G rows H1.
  rewrite node_graph in Hf.
  split; [|split].
  - intros n Hn. rewrite node_graph in Hn.
    rewrite successors_graph, predecessors_graph, !decide_True by done. done.
  - rewrite node_graph. apply (neighbours_of_endpoints (edge_rows edges) f).
  - assert (Hc : connected_nodes (from_pandas_edgelist (edge_rows edges)) sel w
                 = Some (if bool_decide (connection_depth sel = Some 1)
                         then {[f]} ∪ neighbours_of (edge_rows edges) f
                         else {[f]} ∪ neighbours_of (edge_rows edges) f
                              ∪ ⋃ (neighbours_of (edge_rows edges)
                                     <$> elements (neighbours_of (edge_rows edges) f)),
                         None)).
    { unfold connected_nodes. rewrite Hmode, Hsel.
      rewrite bool_decide_eq_true_2 by (by rewrite node_graph).
      by rewrite individual_nodes_graph. }
    destruct (resolve_view_fields edges nodes sel w _ _ Hc) as (v & Hv & HC & Hw & _).
    exists v. split; [done|]. split; [done|]. rewrite HC. split.
    + intros Hd. rewrite bool_decide_eq_true_2 by done.
      unfold neighbours_of. by rewrite (assoc_L (∪)).
    + intros Hd. by rewrite bool_decide_eq_false_2.
Qed.

(** C5. In community mode with a non-empty member list the selected
    nodes are exactly the members when the box is not ticked, and the
    members with the successors and predecessors of every member (one
    hop) when it is; the depth setting changes nothing. The member list
    computed from the nodes frame holds exactly the ids of the rows of
    the selected community. *)
Theorem community_view edges nodes sel w (members : list K) :
  filter_mode sel = Community →
  community_nodes sel = Some members →
  members ≠ [] →
  let rows := edge_rows edges in
  (∃ v, resolve_view edges nodes sel w = Some v
      ∧ view_warning v = None
      ∧ (include_external_checkbox w = false →
           view_connected_nodes v = list_to_set members)
      ∧ (include_external_checkbox w = true →
           view_connected_nodes v
           = list_to_set members
             ∪ ⋃ ((λ m, successors_of rows m ∪ predecessors_of rows m) <$> members))
      ∧ ∀ depth, resolve_view edges nodes (with_depth sel depth) w = Some v)
  ∧ ∀ selected_community k,
      k ∈ community_members nodes selected_community
      ↔ ∃ r, r ∈ nodes ∧ id r = k ∧ community r = Some selected_community.
Proof.
  intros Hmode Hcn Hne rows. subst rows. split.
  - destruct members as [|m ms]; [done|].
    assert (Hc : ∀ depth,
               connected_nodes (from_pandas_edgelist (edge_rows edges))
                               (with_depth sel depth) w
               = Some (if include_external_checkbox w
                       then list_to_set (m :: ms)
                            ∪ ⋃ (neighbours_of (edge_rows edges) <$> m :: ms)
                       else list_to_set (m :: ms), None)).
    { intros depth. unfold connected_nodes, with_depth. simpl.
      rewrite Hmode, Hcn. by rewrite community_nodes_view_graph. }
    assert (Hc0 : connected_nodes (from_pandas_edgelist (edge_rows edges)) sel w
                  = connected_nodes (from_pandas_edgelist (edge_rows edges))
                                    (with_depth sel None) w).
    { unfold connected_nodes, with_depth. simpl. by rewrite Hmode, Hcn. }
    rewrite Hc in Hc0.
    destruct (resolve_view_fields edges nodes sel w _ _ Hc0) as (v & Hv & HC & Hw & _).
    exists v. split; [done|]. split; [done|]. rewrite HC.
    split; [by intros ->|]. split; [by intros ->|].
    intros depth. unfold resolve_view in *. rewrite Hc. by rewrite Hc0 in Hv.
  - intros c k. unfold community_members. rewrite list_elem_of_fmap. split.
    + intros (r & -> & Hr). apply list_elem_of_filter in Hr as [Hcr Hr].
      apply Is_true_true, cell_eq_true in Hcr as [Hcr _]. eauto.
    + intros (r & Hr & <- & Hcr). exists r. split; [done|].
      apply list_elem_of_filter. split; [|done].
      apply Is_true_true, cell_eq_true. rewrite Hcr. eauto.
Qed.

(** C7. In individual mode with a focal node that is not in the graph
    the view still exists: the selected nodes are all the nodes of the
    graph, so every edge row passes the endpoint restriction, and the
    warning is raised. *)
Theorem missing_focal_node_fallback edges nodes sel w :
  filter_mode sel = IndividualNode →
  (∀ f, selected_node sel = Some f →
        f ∉ node (from_pandas_edgelist (edge_rows edges))) →
  ∃ v, resolve_view edges nodes sel w = Some v
    ∧ view_connected_nodes v = node (from_pandas_edgelist (edge_rows edges))
    ∧ view_connected_nodes v = endpoints (edge_rows edges)
    ∧ view_warning v = Some (NodeNotFound (selected_node sel))
    ∧ filter (λ e, source e ∈ view_connected_nodes v
                   ∧ target e ∈ view_connected_nodes v) (edge_rows edges)
      = edge_rows edges.
Proof.
  intros Hmode Hf.
  assert (Hc : connected_nodes (from_pandas_edgelist (edge_rows edges)) sel w
               = Some (node (from_pandas_edgelist (edge_rows edges)),
                       Some (NodeNotFound (selected_node sel)))).
  { unfold connected_nodes. rewrite Hmode. simpl.
    destruct (selected_node sel) as [f|] eqn:E; [|done].
    by rewrite bool_decide_eq_false_2 by (by apply Hf). }
  destruct (resolve_view_fields edges nodes sel w _ _ Hc) as (v & Hv & HC & Hw & _).
  exists v. split; [done|]. split; [done|]. split; [by rewrite HC, node_graph|].
  split; [done|]. rewrite HC, node_graph. apply filter_all.
  intros e He. rewrite !elem_of_endpoints. split; exists e; eauto.
Qed.


(** C10. A facet answered with the empty selection restricts nothing:
    the view has the edges, the visible nodes and the node rows of the
    view of the same frame without the column of that facet. A facet
    answered with a non-empty selection keeps only the rows whose cell
    is in the selection. *)
Theorem empty_selection_restricts_nothing edges nodes sel w v :
  resolve_view edges nodes sel w = Some v →
  (selected_years v = Some [] →
     ∃ v', resolve_view (without_year_column edges) nodes sel w = Some v'
       ∧ selected_years v' = None
       ∧ selected_teams v' = selected_teams v
       ∧ edges_df v' = edges_df v
       ∧ nodes_in_edges v' = nodes_in_edges v
       ∧ nodes_df v' = nodes_df v)
  ∧ (selected_teams v = Some [] →
     ∃ v', resolve_view (without_team_column edges) nodes sel w = Some v'
       ∧ selected_teams v' = None
       ∧ selected_years v' = selected_years v
       ∧ edges_df v' = edges_df v
       ∧ nodes_in_edges v' = nodes_in_edges v
       ∧ nodes_df v' = nodes_df v)
  ∧ (∀ y l e, selected_years v = Some (y :: l) → e ∈ edges_df v →
       ∃ y', year e = Some y' ∧ y' ∈ y :: l)
  ∧ (∀ t l e, selected_teams v = Some (t :: l) → e ∈ edges_df v →
       ∃ t', team e = Some t' ∧ t' ∈ t :: l).
Proof.
  intros Hv. apply resolve_view_inv in Hv as (c & wn & Hc & ->).
  split; [|split; [|split]].
  - intros Hy. exists (filter_view (without_year_column edges) nodes w c wn).
    split; [unfold resolve_view; simpl; by rewrite Hc|].
    unfold filter_view in *. simpl in *.
    set (E0 := filter (λ e, endpoints_in c e) (edge_rows edges)) in *.
    assert (HE : (facet (has_year_column edges) (sorted_years E0)
                        (year_multiselect w) year E0).2 = E0).
    { rewrite facet_rows, Hy. by apply filter_all. }
    rewrite HE. done.
  - intros Ht. exists (filter_view (without_team_column edges) nodes w c wn).
    split; [unfold resolve_view; simpl; by rewrite Hc|].
    unfold filter_view in *. simpl in *.
    set (E1 := (facet (has_year_column edges) _ (year_multiselect w) year _).2) in *.
    assert (HE : (facet (has_team_column edges) (sorted_teams E1)
                        (team_multiselect w) team E1).2 = E1).
    { rewrite facet_rows, Ht. by apply filter_all. }
    rewrite HE. done.
  - intros y l e Hy He. unfold filter_view in *. simpl in *.
    rewrite facet_rows in He. apply list_elem_of_filter in He as [_ He].
    rewrite facet_rows, Hy in He. apply list_elem_of_filter in He as [He _].
    by apply Is_true_true, isin_true in He.
  - intros t l e Ht He. unfold filter_view in *. simpl in *.
    rewrite facet_rows, Ht in He. apply list_elem_of_filter in He as [He _].
    by apply Is_true_true, isin_true in He.
Qed.

End view_claims.

End NetworkAppFacts.

(** ** The view on the example graphs *)

Module NetworkAppExamples.
Import NetworkApp Examples NetworkAppFacts.

(** The triangle with focal node [A] at depth 1 and the years answered
    with 2001: the selection is [A], [B], [C]; only [B -> C] passes the
    year facet, so [A], although selected, is not among the visible
    nodes. *)
Lemma facets_then_recompute_witness :
  ∃ v, resolve_view triangle coaches (individual "A" 1) (pick_years [2001]) = Some v
       ∧ view_connected_nodes v = {["A"; "B"; "C"]}
       ∧ edges_df v = [edge "B" "C" 2001 "SF"]
       ∧ "A" ∈ view_connected_nodes v
       ∧ ("A" ∉ nodes_in_edges v)
       ∧ "B" ∈ nodes_in_edges v.
Proof.
  destruct (facets_then_recompute triangle coaches (individual "A" 1)
              (pick_years [2001]))
    as (C & wn & v & _ & Hv & HC & _ & Hind & _ & _ & _ & _ & _ & Hmem & _ & Hgone & _).
  destruct (Hind "A") as [HA HCeq]; [done|done|by vm_compute|].
  assert (He : edges_df <$> resolve_view triangle coaches (individual "A" 1)
                                         (pick_years [2001])
               = Some [edge "B" "C" 2001 "SF"]) by (by vm_compute).
  rewrite Hv in He. injection He as He.
  exists v. split; [done|]. rewrite HC.
  split; [rewrite HCeq; by vm_compute|]. split; [done|]. split; [done|]. split.
  - apply Hgone; [done|]. intros e. rewrite He.
    intros ->%list_elem_of_singleton. done.
  - apply Hmem. exists (edge "B" "C" 2001 "SF"). rewrite He.
    split; [by left|by left].
Defined.

(** For [A -> B], [C -> A] and focal node [A], depth 1 selects
    [A], [B] and [C]; with [B -> D] added, depth 2 selects [A], [B],
    [C] and [D]. *)
Lemma individual_node_view_witness :
  (∃ v, resolve_view abc coaches (individual "A" 1) (defaults false) = Some v
        ∧ view_connected_nodes v = {["A"; "B"; "C"]})
  ∧ (∃ v, resolve_view abcd coaches (individual "A" 2) (defaults false) = Some v
          ∧ view_connected_nodes v = {["A"; "B"; "C"; "D"]}).
Proof.
  split.
  - destruct (individual_node_view abc coaches (individual "A" 1) (defaults false) "A")
      as (_ & _ & v & Hv & _ & Hone & _); [done|done|by vm_compute|].
    exists v. split; [done|]. rewrite Hone by done. by vm_compute.
  - destruct (individual_node_view abcd coaches (individual "A" 2) (defaults false) "A")
      as (_ & _ & v & Hv & _ & _ & Htwo); [done|done|by vm_compute|].
    exists v. split; [done|]. rewrite Htwo by done. by vm_compute.
Defined.

(** Community 1 is [A], [B] and [E]; [E] has no edge. Without external
    connections the selection is the three members; with them it gains
    [C] and [D], one hop away. *)
Lemma community_view_witness :
  (∃ v, resolve_view abcd coaches (in_community 1) (defaults false) = Some v
        ∧ view_connected_nodes v = {["A"; "B"; "E"]})
  ∧ (∃ v, resolve_view abcd coaches (in_community 1) (defaults true) = Some v
          ∧ view_connected_nodes v = {["A"; "B"; "C"; "D"; "E"]}).
Proof.
  split.
  - destruct (community_view abcd coaches (in_community 1) (defaults false)
                             ["A"; "B"; "E"])
      as [(v & Hv & _ & Hoff & _ & _) _]; [done|by vm_compute|done|].
    exists v. split; [done|]. rewrite Hoff by done. by vm_compute.
  - destruct (community_view abcd coaches (in_community 1) (defaults true)
                             ["A"; "B"; "E"])
      as [(v & Hv & _ & _ & Hon & _) _]; [done|by vm_compute|done|].
    exists v. split; [done|]. rewrite Hon by done. by vm_compute.
Defined.

(** A focal node [Z] that is in no edge row: the view is the whole
    graph, with the warning. *)
Lemma missing_focal_node_fallback_witness :
  ∃ v, resolve_view abc coaches (individual "Z" 1) (defaults false) = Some v
       ∧ view_connected_nodes v = {["A"; "B"; "C"]}
       ∧ view_warning v = Some (NodeNotFound (Some "Z")).
Proof.
  destruct (missing_focal_node_fallback abc coaches (individual "Z" 1) (defaults false))
    as (v & Hv & _ & Hall & Hw & _).
  - done.
  - intros f [= <-]. by vm_compute.
  - exists v. split; [done|]. split; [|done]. rewrite Hall. by vm_compute.
Defined.



(** The year facet answered with nothing: the view of [A -> B],
    [C -> A] keeps both edge rows, as the frame without a year column
    does. *)
Lemma empty_selection_restricts_nothing_witness :
  ∃ v v', resolve_view abc coaches (individual "A" 1) (pick_years []) = Some v
          ∧ selected_years v = Some []
          ∧ resolve_view (without_year_column abc) coaches (individual "A" 1)
                         (pick_years []) = Some v'
          ∧ edges_df v' = edges_df v
          ∧ edges_df v = edge_rows abc.
Proof.
  destruct (resolve_view abc coaches (individual "A" 1) (pick_years []))
    as [v|] eqn:E; [|by vm_compute in E].
  destruct (empty_selection_restricts_nothing abc coaches (individual "A" 1)
              (pick_years []) v E) as (Hyears & _).
  assert (Hsel : selected_years v = Some []).
  { vm_compute in E. by injection E as <-. }
  destruct (Hyears Hsel) as (v' & Hv' & _ & _ & He & _).
  exists v, v'. split; [done|]. split; [done|]. split; [done|]. split; [done|].
  vm_compute in E. by injection E as <-.
Defined.

End NetworkAppExamples.

(** ** More on the edge builder *)

Module EdgeBuilderExtras.
Import EdgeBuilder EdgeBuilderMore EdgeBuilderFacts.

Lemma imap_ids (l : list (option string)) (k : nat) :
  node_coach_id
    <$> imap (λ i n, {| coach := n; node_coach_id := Z.of_nat (i + k) + 1 |}) l
  = seqZ (Z.of_nat k + 1) (Z.of_nat (length l)).
Proof.
  revert k. induction l as [|a l IH]; intros k; [done|].
  cbn [imap fmap list_fmap length]. simpl node_coach_id.
  rewrite seqZ_cons by lia. f_equal.
  rewrite (imap_ext _ (λ i n, {| coach := n;
                                  node_coach_id := Z.of_nat (i + S k) + 1 |}));
    [|intros i x _; simpl; do 2 f_equal; lia].
  rewrite IH. f_equal; lia.
Qed.

Lemma imap_coaches (g : nat → option string → NodeRow) (l : list (option string)) :
  (∀ i n, coach (g i n) = n) → coach <$> imap g l = l.
Proof.
  revert g. induction l as [|a l IH]; intros g Hg; [done|].
  cbn [imap fmap list_fmap]. rewrite Hg. f_equal. apply IH. intros i n. apply Hg.
Qed.

Lemma make_nodes_coaches df :
  coach <$> make_nodes df = drop_duplicates (Name <$> df).
Proof. unfold make_nodes. by apply imap_coaches. Qed.

Lemma make_nodes_ids df :
  node_coach_id <$> make_nodes df = seqZ 1 (Z.of_nat (length (make_nodes df))).
Proof.
  unfold make_nodes. rewrite length_imap.
  rewrite (imap_ext _ (λ i n, {| coach := n;
                                  node_coach_id := Z.of_nat (i + 0) + 1 |}));
    [|intros i x _; simpl; do 2 f_equal; lia].
  by rewrite imap_ids.
Qed.

Lemma length_drop_duplicates_from {A} `{EqDecision A} (seen l : list A) :
  (length (drop_duplicates_from seen l) ≤ length l)%nat.
Proof.
  revert seen. induction l as [|x l IH]; intros seen; simpl; [done|].
  destruct (decide (x ∈ seen)).
  - specialize (IH seen). lia.
  - specialize (IH (x :: seen)). simpl. lia.
Qed.

(** X1. The nodes table lists every name of the frame once, in order of
    first appearance, and numbers the rows 1, 2, ..., n. *)
Theorem nodes_table_numbering (df : list RosterRow) :
  let nodes := make_nodes df in
  node_coach_id <$> nodes = seqZ 1 (Z.of_nat (length nodes))
  ∧ coach <$> nodes = drop_duplicates (Name <$> df)
  ∧ NoDup (coach <$> nodes)
  ∧ NoDup (node_coach_id <$> nodes)
  ∧ (∀ n, n ∈ coach <$> nodes ↔ ∃ r, r ∈ df ∧ Name r = n)
  ∧ (length nodes ≤ length df)%nat.
Proof.
  intros nodes. subst nodes.
  split; [apply make_nodes_ids|]. split; [apply make_nodes_coaches|].
  split; [rewrite make_nodes_coaches; apply NoDup_drop_duplicates|].
  split; [rewrite make_nodes_ids; apply NoDup_seqZ|]. split.
  - intros n. rewrite make_nodes_coaches, elem_of_drop_duplicates, list_elem_of_fmap.
    naive_solver.
  - unfold make_nodes. rewrite length_imap.
    etrans; [apply length_drop_duplicates_from|]. by rewrite length_fmap.
Qed.

Lemma NoDup_fmap_eq {A B} (f : A → B) (l : list A) (x y : A) :
  NoDup (f <$> l) → x ∈ l → y ∈ l → f x = f y → x = y.
Proof.
  induction l as [|a l IH]; intros Hnd Hx Hy Hf; [by apply elem_of_nil in Hx|].
  rewrite fmap_cons in Hnd. apply NoDup_cons in Hnd as [Ha Hnd].
  apply elem_of_cons in Hx as [->|Hx]; apply elem_of_cons in Hy as [->|Hy].
  - done.
  - exfalso. apply Ha. rewrite Hf. by apply list_elem_of_fmap_2.
  - exfalso. apply Ha. rewrite <- Hf. by apply list_elem_of_fmap_2.
  - by apply IH.
Qed.

Lemma coach_id_of_node df (name : option string) :
  name ∈ Name <$> df →
  ∃ nd, nd ∈ make_nodes df ∧ coach nd = name
        ∧ coach_id_of (make_nodes df) name = Some (node_coach_id nd).
Proof.
  intros Hname. unfold coach_id_of.
  destruct (filter_coach_imap
              (λ i n, {| coach := n; node_coach_id := Z.of_nat i + 1 |})
              (drop_duplicates (Name <$> df)) name) as [nd Hnd].
  - done.
  - apply NoDup_drop_duplicates.
  - by apply elem_of_drop_duplicates.
  - fold (make_nodes df) in Hnd. rewrite Hnd. simpl. exists nd.
    assert (Hin : nd ∈ filter (λ n, coach n = name) (make_nodes df))
      by (rewrite Hnd; by left).
    apply list_elem_of_filter in Hin as [? ?]. done.
Qed.

Lemma eligible_level r : eligible r → is_Some (level_of (role_category r)).
Proof.
  unfold eligible. intros He. apply Is_true_true, isin_true in He as (x & -> & Hx).
  unfold allowed_roles in Hx.
  repeat (apply elem_of_cons in Hx as [->|Hx]); try (by vm_compute; eauto).
  by apply elem_of_nil in Hx.
Qed.

(** X2. The merge keeps the filtered frame as it is: the same rows in
    the same order, each once. Every row gets the level of its role and
    the id of the one row of the nodes table that bears its name, and
    two rows have the same id exactly when they have the same name
    (two rows without a name included). *)
Theorem merge_keeps_rows (raw : list RosterRow) :
  let df := filter (λ r, eligible r) raw in
  base <$> prepare raw = df
  ∧ (∀ s, s ∈ prepare raw →
       hierarchy_level s = level_of (role_category (base s))
       ∧ is_Some (hierarchy_level s)
       ∧ ∃ nd, nd ∈ make_nodes df ∧ coach nd = Name (base s)
               ∧ coach_id s = Some (node_coach_id nd))
  ∧ (∀ s t, s ∈ prepare raw → t ∈ prepare raw →
       (coach_id s = coach_id t ↔ Name (base s) = Name (base t))).
Proof.
  intros df. subst df.
  assert (Hrow : ∀ s, s ∈ prepare raw →
            hierarchy_level s = level_of (role_category (base s))
            ∧ is_Some (hierarchy_level s)
            ∧ ∃ nd, nd ∈ make_nodes (filter (λ r, eligible r) raw)
                    ∧ coach nd = Name (base s)
                    ∧ coach_id s = Some (node_coach_id nd)).
  { intros s (r & Hr & He & ->)%elem_of_prepare. simpl.
    split; [done|]. split; [by apply eligible_level|].
    apply coach_id_of_node, list_elem_of_fmap. exists r. split; [done|].
    by apply list_elem_of_filter. }
  split; [|split; [done|]].
  - rewrite prepare_annotate.
    clear Hrow. generalize (make_nodes (filter (λ r, eligible r) raw)).
    intros nodes. induction (filter _ raw) as [|r l IH]; [done|].
    rewrite !fmap_cons. simpl. by rewrite IH.
  - intros s t Hs Ht.
    destruct (Hrow s Hs) as (_ & _ & nd1 & Hn1 & Hc1 & Hi1).
    destruct (Hrow t Ht) as (_ & _ & nd2 & Hn2 & Hc2 & Hi2).
    rewrite Hi1, Hi2, <- Hc1, <- Hc2. split.
    + intros [= Hid]. f_equal.
      apply (NoDup_fmap_eq node_coach_id (make_nodes (filter (λ r, eligible r) raw)));
        try done.
      rewrite make_nodes_ids. apply NoDup_seqZ.
    + intros Hco. do 2 f_equal.
      apply (NoDup_fmap_eq coach (make_nodes (filter (λ r, eligible r) raw)));
        try done.
      rewrite make_nodes_coaches. apply NoDup_drop_duplicates.
Qed.

Lemma level_of_cases (c : option string) (a : Z) :
  level_of c = Some a →
  (c = Some "Head Coach" ∧ a = 1) ∨ (c = Some "Coordinator" ∧ a = 2)
  ∨ (c = Some "Position Coach - Defense" ∧ a = 3)
  ∨ (c = Some "Position Coach - Offense" ∧ a = 3)
  ∨ (c = Some "Specialist Coach" ∧ a = 4).
Proof.
  destruct c as [x|]; [|done]. unfold level_of, hierarchy_map. simpl.
  rewrite !lookup_insert, lookup_empty.
  repeat case_decide; intros ?; simplify_eq; tauto.
Qed.

Lemma elem_of_hierarchical_edges df e :
  e ∈ hierarchical_edges df ↔
  ∃ k g src tgt, (k, g) ∈ groupby_team_year df ∧ src ∈ g ∧ tgt ∈ g
                 ∧ supervises src tgt ∧ e = hier_edge k src tgt.
Proof.
  rewrite hierarchical_edges_bind, list_elem_of_bind. split.
  - intros ([k g] & He & Hg). unfold hier_emitted in He. simpl in He.
    apply list_elem_of_fmap in He as ([s t] & -> & Hp).
    apply list_elem_of_filter in Hp as [Hsup Hp].
    apply elem_of_nested_pairs in Hp as [? ?]. exists k, g, s, t. done.
  - intros (k & g & s & t & Hg & Hs & Ht & Hsup & ->). exists (k, g).
    split; [|done]. unfold hier_emitted. simpl.
    apply list_elem_of_fmap. exists (s, t). split; [done|].
    apply list_elem_of_filter. split; [done|]. by apply elem_of_nested_pairs.
Qed.

Lemma elem_of_costaff_edges df e :
  e ∈ costaff_edges df ↔
  ∃ k g src tgt, (k, g) ∈ groupby_team_year df ∧ src ∈ g ∧ tgt ∈ g
                 ∧ e = costaff_edge k src tgt.
Proof.
  rewrite costaff_edges_bind, list_elem_of_bind. split.
  - intros ([k g] & He & Hg). unfold costaff_emitted in He. simpl in He.
    apply list_elem_of_fmap in He as ([s t] & -> & Hp).
    apply elem_of_nested_pairs in Hp as [? ?]. exists k, g, s, t. done.
  - intros (k & g & s & t & Hg & Hs & Ht & ->). exists (k, g).
    split; [|done]. unfold costaff_emitted. simpl.
    apply list_elem_of_fmap. exists (s, t). split; [done|].
    by apply elem_of_nested_pairs.
Qed.

(** X3. Every hierarchical edge of the output goes down the hierarchy:
    the level of its source role is below the level of its target role,
    so no edge points to a head coach and none leaves a specialist
    coach; its source is the head coach or its two sides are one and the
    same present value; its weight is 1 and its type [hierarchical]. *)
Theorem hierarchical_edges_go_down (raw : list RosterRow) (e : HierEdge) :
  e ∈ hierarchical_edges (prepare raw) →
  (∃ a b, level_of (from_role e) = Some a ∧ level_of (to_role e) = Some b
          ∧ 1 ≤ a ∧ a < b ∧ b ≤ 4)
  ∧ to_role e ≠ Some "Head Coach"
  ∧ from_role e ≠ Some "Specialist Coach"
  ∧ (from_role e = Some "Head Coach"
     ∨ (from_side e = to_side e ∧ is_Some (from_side e)))
  ∧ edge_weight e = 1
  ∧ edge_type e = "hierarchical".
Proof.
  intros (k & g & s & t & Hg & Hs & Ht & Hsup & ->)%elem_of_hierarchical_edges.
  destruct (group_rows_annotated raw k g s Hg Hs) as (r1 & _ & _ & _ & ->).
  destruct (group_rows_annotated raw k g t Hg Ht) as (r2 & _ & _ & _ & ->).
  apply supervises_iff in Hsup as [(a & b & Ha & Hb & Hlt) Hside].
  simpl in *.
  assert (Hab : 1 ≤ a ∧ b ≤ 4
                ∧ (role_category r2 = Some "Head Coach" → b = 1)
                ∧ (role_category r1 = Some "Specialist Coach" → a = 4)).
  { apply level_of_cases in Ha, Hb.
    destruct Ha as [[-> ->]|[[-> ->]|[[-> ->]|[[-> ->]|[-> ->]]]]];
      destruct Hb as [[-> ->]|[[-> ->]|[[-> ->]|[[-> ->]|[-> ->]]]]];
      repeat split; try lia; intros [=]. }
  destruct Hab as (? & ? & Hhc & Hsp).
  split; [exists a, b; repeat split; done|].
  split; [intros Heq; specialize (Hhc Heq); lia|].
  split; [intros Heq; specialize (Hsp Heq); lia|]. done.
Qed.

Lemma hierarchical_edges_go_down_witness :
  let hc := {| Team := Some "DAL"; Year := Some 1995;
               role_category := Some "Head Coach"; role_subcategory := None;
               position_group := None; side_of_ball := Some "Head Coach";
               Name := Some "Barry Switzer" |} in
  let oc := {| Team := Some "DAL"; Year := Some 1995;
               role_category := Some "Coordinator"; role_subcategory := None;
               position_group := None; side_of_ball := Some "Offense";
               Name := Some "Ernie Zampese" |} in
  ∃ e, hierarchical_edges (prepare [hc; oc]) = [e]
       ∧ from_role e = Some "Head Coach" ∧ to_role e = Some "Coordinator"
       ∧ to_role e ≠ Some "Head Coach".
Proof.
  intros hc oc. eexists. split; [by vm_compute|].
  split; [done|]. split; [done|].
  eapply (hierarchical_edges_go_down [hc; oc]). by vm_compute; left.
Defined.

(** X4. Every hierarchical edge joins two coaches that the co-staff
    edges join as well, in the same team-season and with the same roles
    and sides; so there are at most as many hierarchical edges as
    co-staff edges. *)
Theorem hierarchical_within_costaff (df : list StaffRow) :
  (∀ h, h ∈ hierarchical_edges df →
        ∃ c, c ∈ costaff_edges df ∧ same_pair h c)
  ∧ (length (hierarchical_edges df) ≤ length (costaff_edges df))%nat.
Proof.
  split.
  - intros h (k & g & s & t & Hg & Hs & Ht & _ & ->)%elem_of_hierarchical_edges.
    exists (costaff_edge k s t). split; [|by repeat split].
    apply elem_of_costaff_edges. exists k, g, s, t. done.
  - rewrite hierarchical_edges_bind, costaff_edges_bind.
    induction (groupby_team_year df) as [|kg gs IH]; [done|].
    rewrite !bind_cons, !length_app.
    assert (length (hier_emitted kg) ≤ length (costaff_emitted kg))%nat; [|lia].
    unfold hier_emitted, costaff_emitted. rewrite !length_fmap.
    apply length_filter.
Qed.

(** X5. The co-staff edges are symmetric: with every edge the output
    has the edge of the same two rows taken the other way round. *)
Theorem costaff_edges_symmetric (df : list StaffRow) (e : CoStaffEdge) :
  (e ∈ costaff_edges df ↔ reversed e ∈ costaff_edges df)
  ∧ reversed (reversed e) = e.
Proof.
  assert (Hrev : ∀ e', e' ∈ costaff_edges df → reversed e' ∈ costaff_edges df).
  { intros e' (k & g & s & t & Hg & Hs & Ht & ->)%elem_of_costaff_edges.
    apply elem_of_costaff_edges. exists k, g, t, s. done. }
  assert (Hinv : reversed (reversed e) = e) by (by destruct e).
  split; [|done]. split; [apply Hrev|].
  intros He. rewrite <- Hinv. by apply Hrev.
Qed.

#[local] Instance key_le_total : Total key_le.
Proof.
  intros a b. unfold key_le.
  destruct (decide (a.1 = b.1)) as [Heq|Hne].
  - rewrite decide_True by done. lia.
  - rewrite decide_False by done.
    destruct (String.leb_total a.1 b.1) as [Hl|Hl]; rewrite Hl; simpl; tauto.
Qed.

(** X6. The groups of a frame: their keys are distinct and ascending
    (team first, then year); each group holds, in frame order, exactly
    the rows of its team and year, and is not empty; a row with both
    cells is in the group of its key, a row missing one is in none. *)
Theorem groupby_partition (df : list StaffRow) :
  let groups := groupby_team_year df in
  NoDup groups.*1
  ∧ Sorted key_le groups.*1
  ∧ (∀ k g, (k, g) ∈ groups →
       g = filter (λ s, group_key s = Some k) df ∧ g ≠ [])
  ∧ (∀ s k, s ∈ df → group_key s = Some k → ∃ g, (k, g) ∈ groups ∧ s ∈ g)
  ∧ (∀ s k g, (k, g) ∈ groups → s ∈ g →
       Team (base s) = Some k.1 ∧ Year (base s) = Some k.2).
Proof.
  intros groups. subst groups.
  split; [apply NoDup_group_keys|].
  split; [rewrite group_keys; apply (Sorted_merge_sort key_le)|].
  split; [|split].
  - intros k g [-> (s & Hs & Hk)]%elem_of_groupby. split; [done|].
    intros Hnil.
    assert (Hin : s ∈ filter (λ s, group_key s = Some k) df)
      by (by apply list_elem_of_filter).
    rewrite Hnil in Hin. by apply elem_of_nil in Hin.
  - intros s k Hs Hk. eexists. split.
    + apply elem_of_groupby. eauto.
    + by apply list_elem_of_filter.
  - intros s k g [-> _]%elem_of_groupby [Hk _]%list_elem_of_filter.
    unfold group_key in Hk. destruct (Team (base s)), (Year (base s));
      simplify_eq/=; done.
Qed.

(** X7. Rows whose role is not one of the five allowed roles change
    nothing: the three tables are those of the roster without them, and
    every role written in a co-staff or hierarchical edge is one of the
    five. *)
Theorem only_allowed_roles (raw : list RosterRow) :
  build_edges raw = build_edges (filter (λ r, eligible r) raw)
  ∧ (∀ e, e ∈ costaff_edges (prepare raw) →
       (∃ x, cs_from_role e = Some x ∧ x ∈ allowed_roles)
       ∧ (∃ x, cs_to_role e = Some x ∧ x ∈ allowed_roles))
  ∧ (∀ e, e ∈ hierarchical_edges (prepare raw) →
       (∃ x, from_role e = Some x ∧ x ∈ allowed_roles)
       ∧ (∃ x, to_role e = Some x ∧ x ∈ allowed_roles)).
Proof.
  assert (Hrole : ∀ k g s, (k, g) ∈ groupby_team_year (prepare raw) → s ∈ g →
            ∃ x, role_category (base s) = Some x ∧ x ∈ allowed_roles).
  { intros k g s Hg Hs.
    destruct (group_rows_annotated raw k g s Hg Hs) as (r & _ & He & _ & ->).
    simpl. by apply Is_true_true, isin_true in He. }
  split; [|split].
  - apply build_edges_eligible. rewrite list_filter_filter.
    apply list_filter_iff. intros r. tauto.
  - intros e (k & g & s & t & Hg & Hs & Ht & ->)%elem_of_costaff_edges.
    simpl. eauto.
  - intros e (k & g & s & t & Hg & Hs & Ht & _ & ->)%elem_of_hierarchical_edges.
    simpl. eauto.
Qed.

End EdgeBuilderExtras.

(** ** More on the column names *)

Module SchemaExtras.
Import Schema SchemaFacts.

(** X8. The column names that a successful detection returns are
    columns of the frames: the two endpoint columns of the edges frame,
    the identity and the label column of the nodes frame. The label
    column is [coach] beside [coach_id] and [label] beside [id] when the
    frame has it, and the identity column itself otherwise. *)
Theorem detected_columns_exist (edge_columns node_columns : list string)
    (c : columns_used) :
  detect_columns edge_columns node_columns = Loaded c →
  source_col c ∈ edge_columns ∧ target_col c ∈ edge_columns
  ∧ id_col c ∈ node_columns ∧ label_col c ∈ node_columns
  ∧ (id_col c = "coach_id" →
       label_col c = if has_column "coach" node_columns then "coach" else "coach_id")
  ∧ (id_col c = "id" →
       label_col c = if has_column "label" node_columns then "label" else "id").
Proof.
  unfold detect_columns, detect_edge_columns, detect_node_columns.
  destruct (has_column "from" edge_columns) eqn:Hf,
    (has_column "to" edge_columns) eqn:Ht,
    (has_column "source" edge_columns) eqn:Hs,
    (has_column "target" edge_columns) eqn:Hg,
    (has_column "coach_id" node_columns) eqn:Hc,
    (has_column "id" node_columns) eqn:Hi,
    (has_column "coach" node_columns) eqn:Hco,
    (has_column "label" node_columns) eqn:Hl;
    simpl; intros [= <-]; simpl;
    rewrite ?has_column_true in *; repeat split; try done.
Qed.

Lemma detected_columns_exist_witness :
  ∃ c, detect_columns ["source"; "target"; "year"] ["id"; "value"] = Loaded c
       ∧ source_col c = "source" ∧ target_col c = "target"
       ∧ id_col c = "id" ∧ label_col c = "id"
       ∧ label_col c ∈ ["id"; "value"].
Proof.
  eexists. split; [by vm_compute|]. repeat split; try done.
  eapply (detected_columns_exist ["source"; "target"; "year"] ["id"; "value"]).
  by vm_compute.
Defined.

End SchemaExtras.

(** ** More on the graph and the view *)

Module NetworkAppExtras.
Import NetworkApp NetworkAppMore NetworkAppFacts.

Section extras.
Context {K : Type} `{Countable K}.
Implicit Types (edges : EdgeFrame K) (nodes : list (NodeRow K))
  (rows : list (EdgeRow K)) (sel : Selection K) (w : Widgets).

Lemma filter_ext_in {A} (P Q : A → Prop) `{∀ x, Decision (P x)}
    `{∀ x, Decision (Q x)} (l : list A) :
  (∀ x, x ∈ l → (P x ↔ Q x)) → filter P l = filter Q l.
Proof.
  induction l as [|a l IH]; intros Hl; [done|].
  assert (Ha : P a ↔ Q a) by (apply Hl; by left).
  assert (Hrest : filter P l = filter Q l)
    by (apply IH; intros; apply Hl; by right).
  destruct (decide (P a)) as [HP|HP].
  - rewrite !filter_cons_True by tauto. by rewrite Hrest.
  - rewrite !filter_cons_False by tauto. done.
Qed.

(** X9. The graph built from the edge rows keeps its three tables in
    step: every node is a key of both adjacency tables and no other key
    exists; a node is an endpoint of some row, so no node is isolated;
    [v] is a successor of [u] exactly when [u] is a predecessor of [v],
    exactly when some row goes from [u] to [v]; and asking for the
    successors or predecessors raises exactly for a node that is not in
    the graph. *)
Theorem graph_tables_agree rows :
  let G := from_pandas_edgelist rows in
  dom (succ G) = node G
  ∧ dom (pred G) = node G
  ∧ (∀ n, n ∈ node G ↔ ∃ e, e ∈ rows ∧ (source e = n ∨ target e = n))
  ∧ (∀ u v, (∃ S, successors G u = Some S ∧ v ∈ S)
            ↔ ∃ e, e ∈ rows ∧ source e = u ∧ target e = v)
  ∧ (∀ u v, (∃ S, successors G u = Some S ∧ v ∈ S)
            ↔ (∃ P, predecessors G v = Some P ∧ u ∈ P))
  ∧ (∀ n, successors G n = None ↔ n ∉ node G)
  ∧ (∀ n, predecessors G n = None ↔ n ∉ node G).
Proof.
  intros G. subst G.
  assert (Hs : ∀ u v, (∃ S, successors (from_pandas_edgelist rows) u = Some S ∧ v ∈ S)
                      ↔ ∃ e, e ∈ rows ∧ source e = u ∧ target e = v).
  { intros u v. rewrite successors_graph, <- elem_of_successors_of.
    destruct (decide (u ∈ endpoints rows)) as [Hu|Hu].
    - split; [by intros (S & [= <-] & ?)|eauto].
    - split; [by intros (S & ? & ?)|].
      rewrite elem_of_successors_of. intros (e & He & <- & _).
      exfalso. apply Hu. apply elem_of_endpoints. eauto. }
  assert (Hp : ∀ u v, (∃ P, predecessors (from_pandas_edgelist rows) v = Some P ∧ u ∈ P)
                      ↔ ∃ e, e ∈ rows ∧ source e = u ∧ target e = v).
  { intros u v. rewrite predecessors_graph.
    destruct (decide (v ∈ endpoints rows)) as [Hv|Hv].
    - split.
      + intros (P & [= <-] & (e & ? & ? & ?)%elem_of_predecessors_of). eauto.
      + intros (e & ? & ? & ?). eexists. split; [done|].
        apply elem_of_predecessors_of. eauto.
    - split; [by intros (P & ? & ?)|].
      intros (e & He & _ & <-). exfalso. apply Hv. apply elem_of_endpoints. eauto. }
  split; [|split]; [| |split; [|split; [done|split; [|split]]]].
  - apply set_eq. intros n. rewrite elem_of_dom, node_graph.
    fold (successors (from_pandas_edgelist rows) n). rewrite successors_graph.
    destruct (decide _); [by split; eauto|]. split; [by intros [? ?]|done].
  - apply set_eq. intros n. rewrite elem_of_dom, node_graph.
    fold (predecessors (from_pandas_edgelist rows) n). rewrite predecessors_graph.
    destruct (decide _); [by split; eauto|]. split; [by intros [? ?]|done].
  - intros n. rewrite node_graph. apply elem_of_endpoints.
  - intros u v. by rewrite Hs, Hp.
  - intros n. rewrite successors_graph, node_graph. by destruct (decide _).
  - intros n. rewrite predecessors_graph, node_graph. by destruct (decide _).
Qed.

(** X10. A view never shows more than was selected and loaded: its
    edge rows are rows of the frame in frame order, its node rows are
    rows of the nodes frame in frame order, and its visible nodes are
    selected nodes that are in the full graph; the node rows shown are
    those of visible nodes. *)
Theorem view_within_selection edges nodes sel w :
  ∃ v, resolve_view edges nodes sel w = Some v
    ∧ edges_df v `sublist_of` edge_rows edges
    ∧ nodes_df v `sublist_of` nodes
    ∧ nodes_in_edges v ⊆ view_connected_nodes v
    ∧ nodes_in_edges v ⊆ node (from_pandas_edgelist (edge_rows edges))
    ∧ (∀ r, r ∈ nodes_df v ↔ r ∈ nodes ∧ id r ∈ nodes_in_edges v).
Proof.
  destruct (connected_nodes_total (edge_rows edges) sel w) as [[c wn] Hc].
  destruct (resolve_view_fields edges nodes sel w c wn Hc)
    as (v & Hv & HC & _ & _ & _ & He & Hn & Hd).
  cbv zeta in He. exists v. split; [done|].
  assert (Hin : ∀ e, e ∈ edges_df v →
            e ∈ edge_rows edges ∧ source e ∈ c ∧ target e ∈ c).
  { intros e. rewrite He, !list_elem_of_filter, endpoints_in_iff. tauto. }
  split; [|split; [|split; [|split]]].
  - rewrite He. do 2 (etrans; [apply sublist_filter|]). apply sublist_filter.
  - rewrite Hd. apply sublist_filter.
  - rewrite HC, Hn. intros n (e & He' & Hor)%elem_of_endpoints.
    destruct (Hin e He') as (_ & ? & ?). by destruct Hor as [<-|<-].
  - rewrite Hn, node_graph. intros n (e & He' & Hor)%elem_of_endpoints.
    destruct (Hin e He') as (? & _). apply elem_of_endpoints. eauto.
  - intros r. rewrite Hd, list_elem_of_filter. tauto.
Qed.

(** X11. Widening a selection only adds nodes. For a focal node of the
    graph, depth 1 selects the node itself and depth 2 selects at least
    the nodes of depth 1, all of them nodes of the graph. For a
    community, ticking the external connections keeps every member and
    adds only nodes of the graph. *)
Theorem widening_only_adds rows :
  let G := from_pandas_edgelist rows in
  (∀ f, f ∈ node G →
     ∃ c1 c2, individual_nodes G f (Some 1) = Some c1
              ∧ individual_nodes G f (Some 2) = Some c2
              ∧ f ∈ c1 ∧ c1 ⊆ c2 ∧ c2 ⊆ node G)
  ∧ (∀ members : list K,
       ∃ c c', community_nodes_view G members false = Some c
               ∧ community_nodes_view G members true = Some c'
               ∧ c = list_to_set members
               ∧ c ⊆ c' ∧ c' ⊆ c ∪ node G).
Proof.
  intros G. subst G. split.
  - intros f Hf. rewrite node_graph in Hf.
    rewrite !individual_nodes_graph by done. simpl.
    eexists _, _. split; [done|]. split; [done|].
    split; [set_solver|]. split; [set_solver|].
    rewrite node_graph. intros x.
    rewrite !elem_of_union, elem_of_singleton, elem_of_union_list.
    intros [[->|Hx]|(X & HX & Hx)]; [done| |].
    + by apply (neighbours_of_endpoints rows f).
    + apply list_elem_of_fmap in HX as (h & -> & _).
      by apply (neighbours_of_endpoints rows h).
  - intros members. rewrite !community_nodes_view_graph.
    eexists _, _. split; [done|]. split; [done|]. split; [done|].
    split; [set_solver|]. rewrite node_graph. intros x.
    rewrite !elem_of_union, elem_of_union_list.
    intros [?|(X & HX & Hx)]; [by left|]. right.
    apply list_elem_of_fmap in HX as (h & -> & _).
    by apply (neighbours_of_endpoints rows h).
Qed.

Lemma elem_of_sorted_years rows (y : Z) :
  y ∈ sorted_years rows ↔ ∃ e, e ∈ rows ∧ year e = Some y.
Proof.
  unfold sorted_years.
  rewrite merge_sort_Permutation, elem_of_drop_duplicates. apply list_elem_of_omap.
Qed.

Lemma elem_of_sorted_teams rows (t : string) :
  t ∈ sorted_teams rows ↔ ∃ e, e ∈ rows ∧ team e = Some t.
Proof.
  unfold sorted_teams.
  rewrite merge_sort_Permutation, elem_of_drop_duplicates. apply list_elem_of_omap.
Qed.

(** A facet left on its default, every option selected: when some row
    has the cell, the rows without it are dropped. *)
Lemma facet_all_selected {A} `{EqDecision A} (hc : bool) (options : list A)
    (ms : list A → list A) (cell : EdgeRow K → option A) rows :
  (∀ y, y ∈ options ↔ ∃ e, e ∈ rows ∧ cell e = Some y) →
  ms options = options →
  (facet hc options ms cell rows).2
  = if hc && bool_decide (Exists (λ e, is_Some (cell e)) rows)
    then filter (λ e, is_Some (cell e)) rows else rows.
Proof.
  intros Hopt Hms. unfold facet. destruct hc; [|done]. simpl. rewrite Hms.
  destruct options as [|a l].
  - simpl. rewrite bool_decide_eq_false_2; [done|].
    intros (e & He & [y Hy])%Exists_exists.
    assert (Hin : y ∈ []) by (apply Hopt; eauto). by apply elem_of_nil in Hin.
  - rewrite bool_decide_eq_true_2 by (simpl; lia).
    rewrite bool_decide_eq_true_2.
    2:{ apply Exists_exists. destruct (Hopt a) as [(e & He & Hy) _]; [by left|].
        exists e. split; [done|]. rewrite Hy. eauto. }
    simpl. apply filter_ext_in. intros e He. rewrite Is_true_true, isin_true.
    split.
    + intros (y & -> & _). eauto.
    + intros [y Hy]. exists y. split; [done|]. apply Hopt. eauto.
Qed.


Lemma table_facet_passes {A} `{EqDecision A} (hc : bool)
    (selected : option (list A)) (cell : EdgeRow K → option A) rows :
  (hc = false → selected = None) →
  table_facet hc selected cell rows = filter (λ e, passes selected (cell e)) rows.
Proof.
  intros Hno. unfold table_facet, passes. destruct hc.
  - destruct selected as [[|a l]|]; [by rewrite filter_all|done|by rewrite filter_all].
  - rewrite Hno by done. by rewrite filter_all.
Qed.

(** X13. For a focal node of the graph the two connection tables are
    the rows of the view that leave the node and the rows of the view
    that enter it, in frame order, although they are computed from the
    full edges frame: the counts in their headers are counts of visible
    edges. The section needs the year column: on a frame without one it
    raises, although the view itself was resolved. *)
Theorem connection_tables_match_view edges nodes sel w f :
  filter_mode sel = IndividualNode →
  selected_node sel = Some f →
  f ∈ node (from_pandas_edgelist (edge_rows edges)) →
  ∃ v, resolve_view edges nodes sel w = Some v
    ∧ connection_tables edges f (selected_years v) (selected_teams v)
      = (filter (λ e, source e = f) (edges_df v),
         filter (λ e, target e = f) (edges_df v))
    ∧ (has_year_column edges = true →
         connection_details edges sel v
         = Some (NodeDetails (filter (λ e, source e = f) (edges_df v))
                             (filter (λ e, target e = f) (edges_df v))))
    ∧ (has_year_column edges = false → connection_details edges sel v = None).
Proof.
  intros Hmode Hsel Hf.
  assert (Hfe : f ∈ endpoints (edge_rows edges)) by (by rewrite <- node_graph).
  assert (Hc : ∃ c, connected_nodes (from_pandas_edgelist (edge_rows edges)) sel w
                    = Some (c, None)
                    ∧ {[f]} ∪ neighbours_of (edge_rows edges) f ⊆ c).
  { unfold connected_nodes. rewrite Hmode, Hsel.
    rewrite bool_decide_eq_true_2 by done.
    rewrite individual_nodes_graph by done. simpl. eexists. split; [done|].
    destruct (bool_decide _); set_solver. }
  destruct Hc as (c & Hc & Hsub).
  destruct (resolve_view_fields edges nodes sel w c None Hc)
    as (v & Hv & HC & _ & Hy & Ht & He & _ & _).
  cbv zeta in Hy, Ht, He. exists v. split; [done|].
  assert (Hyn : has_year_column edges = false → selected_years v = None).
  { intros Hno. by rewrite Hy, Hno. }
  assert (Htn : has_team_column edges = false → selected_teams v = None).
  { intros Hno. by rewrite Ht, Hno. }
  assert (Htouch : ∀ e, e ∈ edge_rows edges → source e = f ∨ target e = f →
             endpoints_in c e).
  { intros e Hin Hor. apply endpoints_in_iff.
    assert (source e ∈ {[f]} ∪ neighbours_of (edge_rows edges) f
            ∧ target e ∈ {[f]} ∪ neighbours_of (edge_rows edges) f) as [? ?].
    { rewrite !elem_of_union, !elem_of_singleton, !elem_of_neighbours_of.
      destruct Hor as [<-|<-]; split; eauto 10. }
    split; by apply Hsub. }
  assert (Htab : ∀ P : EdgeRow K → Prop, ∀ HP : (∀ e, Decision (P e)),
            (∀ e, P e → source e = f ∨ target e = f) →
            table_facet (has_team_column edges) (selected_teams v) team
              (table_facet (has_year_column edges) (selected_years v) year
                 (filter P (edge_rows edges)))
            = filter P (edges_df v)).
  { intros P HP HPf. rewrite !table_facet_passes by done.
    rewrite He, !list_filter_filter. apply filter_ext_in.
    intros e Hin. split.
    - intros [[? ?] HPe]. repeat split; try done. apply Htouch; auto.
    - intros [[[? ?] ?] _]. done. }
  assert (Htables : connection_tables edges f (selected_years v) (selected_teams v)
                    = (filter (λ e, source e = f) (edges_df v),
                       filter (λ e, target e = f) (edges_df v))).
  { unfold connection_tables. f_equal; apply Htab; auto. }
  split; [done|]. unfold connection_details. rewrite Hmode, Hsel.
  rewrite bool_decide_eq_true_2 by done. rewrite Htables. simpl.
  split; intros ->; done.
Qed.

Lemma NoDup_fmap_filter {A B} (g : A → B) (P : A → Prop)
    `{∀ x, Decision (P x)} (l : list A) :
  NoDup (g <$> l) → NoDup (g <$> filter P l).
Proof.
  induction l as [|a l IH]; [done|]. rewrite fmap_cons.
  intros [Ha Hnd]%NoDup_cons. destruct (decide (P a)).
  - rewrite filter_cons_True by done. rewrite fmap_cons. apply NoDup_cons.
    split; [|by apply IH]. intros (y & Hy & Hin)%list_elem_of_fmap.
    apply Ha. rewrite Hy. apply list_elem_of_fmap_2.
    by apply list_elem_of_filter in Hin as [_ ?].
  - rewrite filter_cons_False by done. by apply IH.
Qed.

(** X14. The graph that is drawn has exactly the visible nodes. When
    the ids of the nodes frame are distinct, the node count shown above
    the graph is at most the number of nodes drawn, and equals it when
    every visible node has a row in the nodes frame; the edge count
    shown is at most the number of rows of the edges frame. *)
Theorem counts_above_the_graph edges nodes sel w :
  NoDup (id <$> nodes) →
  ∃ v, resolve_view edges nodes sel w = Some v
    ∧ node (drawn_graph v) = nodes_in_edges v
    ∧ (nodes_in_view v ≤ size (node (drawn_graph v)))%nat
    ∧ ((∀ n, n ∈ nodes_in_edges v → n ∈ id <$> nodes) →
         nodes_in_view v = size (node (drawn_graph v)))
    ∧ (edges_in_view v ≤ length (edge_rows edges))%nat.
Proof.
  intros Hnd.
  destruct (connected_nodes_total (edge_rows edges) sel w) as [[c wn] Hc].
  destruct (resolve_view_fields edges nodes sel w c wn Hc)
    as (v & Hv & _ & _ & _ & _ & He & Hn & Hd).
  cbv zeta in He. exists v. split; [done|].
  assert (HG : node (drawn_graph v) = nodes_in_edges v).
  { unfold drawn_graph. by rewrite node_graph, Hn. }
  rewrite HG. unfold nodes_in_view, edges_in_view.
  assert (Hids : NoDup (id <$> nodes_df v)).
  { rewrite Hd. by apply NoDup_fmap_filter. }
  assert (Hlen : length (nodes_df v)
                 = size (list_to_set (id <$> nodes_df v) : gset K)).
  { rewrite size_list_to_set by done. by rewrite length_fmap. }
  assert (Hsub : (list_to_set (id <$> nodes_df v) : gset K) ⊆ nodes_in_edges v).
  { intros n. rewrite elem_of_list_to_set, list_elem_of_fmap.
    intros (r & -> & Hr). rewrite Hd in Hr.
    by apply list_elem_of_filter in Hr as [? _]. }
  split; [done|]. split; [|split].
  - rewrite Hlen. by apply subseteq_size.
  - intros Hall. rewrite Hlen. f_equal. apply set_eq. intros n. split.
    + apply Hsub.
    + intros Hn'. rewrite elem_of_list_to_set.
      pose proof (Hall n Hn') as Hin.
      apply list_elem_of_fmap in Hin as (r & -> & Hr).
      apply list_elem_of_fmap. exists r. split; [done|].
      rewrite Hd. by apply list_elem_of_filter.
  - rewrite He. do 3 (etrans; [apply length_filter|]). done.
Qed.

Lemma elem_of_communities nodes (c : Z) :
  c ∈ communities nodes ↔ ∃ r, r ∈ nodes ∧ community r = Some c.
Proof.
  unfold communities.
  rewrite merge_sort_Permutation, elem_of_drop_duplicates. apply list_elem_of_omap.
Qed.

Lemma elem_of_community_members nodes (c : Z) (k : K) :
  k ∈ community_members nodes c ↔ ∃ r, r ∈ nodes ∧ id r = k ∧ community r = Some c.
Proof.
  unfold community_members. rewrite list_elem_of_fmap. split.
  - intros (r & -> & Hr). apply list_elem_of_filter in Hr as [Hcr Hr].
    apply Is_true_true, cell_eq_true in Hcr as [Hcr _]. eauto.
  - intros (r & Hr & <- & Hcr). exists r. split; [done|].
    apply list_elem_of_filter. split; [|done].
    apply Is_true_true, cell_eq_true. rewrite Hcr. eauto.
Qed.

(** X15. When the select box answers with one of its options, the
    community branch never ends on an empty member list: the community
    offered is borne by at least one node row, the members are exactly
    the ids of the rows of that community, and the view is resolved on
    them by the community branch, not by the fallback to the whole
    graph: its selected nodes are exactly the members (no other node of
    the graph is selected) when the box is not ticked, and the members
    with their successors and predecessors when it is. The branch gives
    up, and the script falls back to individual mode, exactly when the
    frame has no community column or no row with a community. *)
Theorem community_is_never_empty (has_community_column : bool) nodes
    (selectbox : list Z → Z) edges w :
  (∀ options, options ≠ [] → selectbox options ∈ options) →
  match select_community has_community_column nodes selectbox with
  | Some (c, members) =>
      has_community_column = true
      ∧ c ∈ communities nodes
      ∧ members ≠ []
      ∧ (∀ k, k ∈ members ↔ ∃ r, r ∈ nodes ∧ id r = k ∧ community r = Some c)
      ∧ connected_nodes (from_pandas_edgelist (edge_rows edges))
                        (community_selection members) w
        = Some (if include_external_checkbox w
                then list_to_set members
                     ∪ ⋃ (neighbours_of (edge_rows edges) <$> members)
                else list_to_set members, None)
      ∧ ∃ v, resolve_view edges nodes (community_selection members) w = Some v
             ∧ view_warning v = None
             ∧ list_to_set members ⊆ view_connected_nodes v
             ∧ view_connected_nodes v
               = (if include_external_checkbox w
                  then list_to_set members
                       ∪ ⋃ (neighbours_of (edge_rows edges) <$> members)
                  else list_to_set members)
             ∧ (include_external_checkbox w = false →
                ∀ n, n ∈ view_connected_nodes v ↔
                     ∃ r, r ∈ nodes ∧ id r = n ∧ community r = Some c)
  | None =>
      (has_community_column = false ∨ ∀ r, r ∈ nodes → community r = None)
      ∧ (has_community_column = true → communities nodes = [])
  end.
Proof.
  intros Hbox. unfold select_community.
  destruct has_community_column; [|split; [by left|done]].
  destruct (communities nodes) as [|c0 cs] eqn:Ecs.
  - simpl. split; [|done]. right. intros r Hr.
    destruct (community r) as [c|] eqn:Ec; [|done].
    assert (Hin : c ∈ communities nodes) by (apply elem_of_communities; eauto).
    rewrite Ecs in Hin. by apply elem_of_nil in Hin.
  - rewrite bool_decide_eq_true_2 by (simpl; lia). cbv zeta.
    set (c := selectbox (c0 :: cs)).
    assert (Hc : c ∈ communities nodes) by (rewrite Ecs; by apply Hbox).
    split; [done|]. split; [by apply Hbox|].
    assert (Hne : community_members nodes c ≠ []).
    { apply elem_of_communities in Hc as (r & Hr & Hcr). intros Hnil.
      assert (Hin : id r ∈ community_members nodes c)
        by (apply elem_of_community_members; eauto).
      rewrite Hnil in Hin. by apply elem_of_nil in Hin. }
    split; [done|]. split; [apply elem_of_community_members|].
    assert (Hmem := elem_of_community_members nodes c).
    destruct (community_members nodes c) as [|m ms] eqn:Em; [done|].
    assert (Hcn : connected_nodes (from_pandas_edgelist (edge_rows edges))
                                  (community_selection (m :: ms)) w
                  = Some (if include_external_checkbox w
                          then list_to_set (m :: ms)
                               ∪ ⋃ (neighbours_of (edge_rows edges) <$> m :: ms)
                          else list_to_set (m :: ms), None)).
    { unfold connected_nodes, community_selection. simpl.
      by rewrite community_nodes_view_graph. }
    split; [done|].
    destruct (resolve_view_fields edges nodes _ w _ _ Hcn) as (v & Hv & HC & Hw & _).
    exists v. split; [done|]. split; [done|]. rewrite HC.
    split; [destruct (include_external_checkbox w); set_solver|].
    split; [done|]. intros ->. intros n.
    rewrite elem_of_list_to_set. apply Hmem.
Qed.

(** X16. The options offered by the two filters of a view. The year
    filter offers the years present in the edge rows whose two endpoints
    are selected; the team filter offers the teams present in those of
    these rows that pass the year facet, so a team borne only by rows of
    unselected years is not offered. Each list holds every value once,
    in ascending order, and the selection recorded in the view is the
    answer of the widget on it. *)
Theorem facet_options_offered edges nodes sel w :
  ∃ C wn v,
    connected_nodes (from_pandas_edgelist (edge_rows edges)) sel w = Some (C, wn)
    ∧ resolve_view edges nodes sel w = Some v
    ∧ view_connected_nodes v = C
    ∧ let E0 := filter (λ e, source e ∈ C ∧ target e ∈ C) (edge_rows edges) in
      let E1 := filter (λ e, passes (selected_years v) (year e)) E0 in
      let years := sorted_years E0 in
      let teams := sorted_teams E1 in
      selected_years v
        = (if has_year_column edges && bool_decide (0 < length years)%nat
           then Some (year_multiselect w years) else None)
      ∧ selected_teams v
        = (if has_team_column edges && bool_decide (0 < length teams)%nat
           then Some (team_multiselect w teams) else None)
      ∧ NoDup years ∧ Sorted Z.le years
      ∧ (∀ y, y ∈ years ↔
           ∃ e, e ∈ edge_rows edges ∧ source e ∈ C ∧ target e ∈ C
                ∧ year e = Some y)
      ∧ NoDup teams ∧ Sorted (λ a b : string, String.leb a b) teams
      ∧ (∀ t, t ∈ teams ↔
           ∃ e, e ∈ edge_rows edges ∧ source e ∈ C ∧ target e ∈ C
                ∧ passes (selected_years v) (year e) ∧ team e = Some t).
Proof.
  assert (Htot : Total (λ a b : string, Is_true (String.leb a b))).
  { intros a b. destruct (String.leb_total a b) as [Hl|Hl]; rewrite Hl; simpl; tauto. }
  destruct (connected_nodes_total (edge_rows edges) sel w) as [[c wn] Hc].
  destruct (resolve_view_fields edges nodes sel w c wn Hc)
    as (v & Hv & HC & _ & Hy & Ht & _).
  exists c, wn, v. split; [done|]. split; [done|]. split; [done|].
  intros E0 E1 years teams. subst E0 E1 years teams. cbv zeta in Hy, Ht.
  assert (HE0 : filter (λ e, source e ∈ c ∧ target e ∈ c) (edge_rows edges)
                = filter (λ e, endpoints_in c e) (edge_rows edges)).
  { apply list_filter_iff. intros e. by rewrite endpoints_in_iff. }
  rewrite HE0.
  split; [done|]. split; [done|].
  split; [unfold sorted_years; rewrite merge_sort_Permutation;
          apply NoDup_drop_duplicates|].
  split; [apply (Sorted_merge_sort Z.le)|].
  split.
  { intros y. rewrite elem_of_sorted_years. split.
    - intros (e & [Hin He]%list_elem_of_filter & Hye).
      apply endpoints_in_iff in Hin as [? ?]. exists e. done.
    - intros (e & He & ? & ? & Hye). exists e. split; [|done].
      apply list_elem_of_filter. split; [|done]. by apply endpoints_in_iff. }
  split; [unfold sorted_teams; rewrite merge_sort_Permutation;
          apply NoDup_drop_duplicates|].
  split; [apply (Sorted_merge_sort (λ a b : string, Is_true (String.leb a b)))|].
  intros t. rewrite elem_of_sorted_teams. split.
  - intros (e & [Hp [Hin He]%list_elem_of_filter]%list_elem_of_filter & Hte).
    apply endpoints_in_iff in Hin as [? ?]. exists e. done.
  - intros (e & He & ? & ? & Hp & Hte). exists e. split; [|done].
    apply list_elem_of_filter. split; [done|].
    apply list_elem_of_filter. split; [|done]. by apply endpoints_in_iff.
Qed.

Lemma edges_df_nothing_filtered edges nodes w (c : gset K) wn :
  (∀ options, year_multiselect w options = options) →
  (∀ options, team_multiselect w options = options) →
  (∀ e, e ∈ edge_rows edges → is_Some (year e) ∧ is_Some (team e)) →
  edges_df (filter_view edges nodes w c wn)
  = filter (λ e, endpoints_in c e) (edge_rows edges).
Proof.
  intros Hy Ht Hcells. unfold filter_view. simpl.
  set (E0 := filter (λ e, endpoints_in c e) (edge_rows edges)).
  assert (HE0 : ∀ e, e ∈ E0 → is_Some (year e) ∧ is_Some (team e)).
  { intros e [_ He]%list_elem_of_filter. by apply Hcells. }
  assert (H1 : (facet (has_year_column edges) (sorted_years E0)
                      (year_multiselect w) year E0).2 = E0).
  { rewrite (facet_all_selected _ _ _ year)
      by (try done; apply elem_of_sorted_years).
    destruct (_ && _); [|done]. apply filter_all. intros e He. by apply HE0. }
  rewrite H1.
  rewrite (facet_all_selected _ _ _ team)
    by (try done; apply elem_of_sorted_teams).
  destruct (_ && _); [|done]. apply filter_all. intros e He. by apply HE0.
Qed.

(** X17. When nothing is filtered out (both facets on their default
    and no row with a missing year or team), the view of a focal node
    of the graph shows every selected node, the focal node included:
    recomputing the visible nodes from the edges removes none, at
    depth 1 and at depth 2. *)
Theorem individual_view_keeps_selection edges nodes sel w f :
  filter_mode sel = IndividualNode →
  selected_node sel = Some f →
  f ∈ node (from_pandas_edgelist (edge_rows edges)) →
  (∀ options, year_multiselect w options = options) →
  (∀ options, team_multiselect w options = options) →
  (∀ e, e ∈ edge_rows edges → is_Some (year e) ∧ is_Some (team e)) →
  ∃ v, resolve_view edges nodes sel w = Some v
    ∧ nodes_in_edges v = view_connected_nodes v
    ∧ f ∈ nodes_in_edges v.
Proof.
  intros Hmode Hsel Hf Hy Ht Hcells. set (rows := edge_rows edges) in *.
  assert (Hfe : f ∈ endpoints rows) by (by rewrite <- node_graph).
  set (c := if bool_decide (connection_depth sel = Some 1)
            then {[f]} ∪ neighbours_of rows f
            else {[f]} ∪ neighbours_of rows f
                 ∪ ⋃ (neighbours_of rows <$> elements (neighbours_of rows f))).
  assert (Hc : connected_nodes (from_pandas_edgelist rows) sel w = Some (c, None)).
  { unfold connected_nodes. rewrite Hmode, Hsel.
    rewrite bool_decide_eq_true_2 by done.
    by rewrite individual_nodes_graph. }
  exists (filter_view edges nodes w c None).
  split; [unfold resolve_view; fold rows; by rewrite Hc|].
  assert (Hfc : f ∈ c) by (subst c; destruct (bool_decide _); set_solver).
  assert (Hnc : neighbours_of rows f ⊆ c)
    by (subst c; destruct (bool_decide _); set_solver).
  assert (Hlink : ∀ h x, h ∈ c → x ∈ c → x ∈ neighbours_of rows h →
            ∃ e, e ∈ filter (λ e, endpoints_in c e) rows
                 ∧ (source e = x ∨ target e = x)).
  { intros h x Hh Hx (e & He & Hor)%elem_of_neighbours_of. exists e. split.
    - apply list_elem_of_filter. split; [|done]. apply endpoints_in_iff.
      destruct Hor as [[-> ->]|[-> ->]]; done.
    - destruct Hor as [[_ ?]|[_ ?]]; auto. }
  assert (Hall : ∀ x, x ∈ c →
            ∃ e, e ∈ filter (λ e, endpoints_in c e) rows
                 ∧ (source e = x ∨ target e = x)).
  { intros x Hx.
    assert (Hcases : x = f ∨ x ∈ neighbours_of rows f
                     ∨ ∃ h, h ∈ neighbours_of rows f ∧ x ∈ neighbours_of rows h).
    { subst c. destruct (bool_decide _).
      - apply elem_of_union in Hx as [->%elem_of_singleton|?]; auto.
      - apply elem_of_union in Hx as [Hx|Hx].
        + apply elem_of_union in Hx as [->%elem_of_singleton|?]; auto.
        + apply elem_of_union_list in Hx as (X & HX & Hx).
          apply list_elem_of_fmap in HX as (h & -> & Hh%elem_of_elements).
          right. right. eauto. }
    destruct Hcases as [->|[Hn|(h & Hh & Hn)]].
    - apply elem_of_endpoints in Hfe as (e & He & Hor). exists e. split; [|done].
      apply list_elem_of_filter. split; [|done]. apply endpoints_in_iff.
      destruct Hor as [Hs|Ht'].
      + split; [by rewrite Hs|]. apply Hnc, elem_of_neighbours_of.
        exists e. split; [done|]. by left.
      + split; [|by rewrite Ht']. apply Hnc, elem_of_neighbours_of.
        exists e. split; [done|]. by right.
    - by apply (Hlink f x).
    - apply (Hlink h x); [by apply Hnc|done|done]. }
  assert (Hedges := edges_df_nothing_filtered edges nodes w c None Hy Ht Hcells).
  fold rows in Hedges.
  assert (Hnodes : nodes_in_edges (filter_view edges nodes w c None) = c).
  { change (nodes_in_edges (filter_view edges nodes w c None))
      with (endpoints (edges_df (filter_view edges nodes w c None))).
    rewrite Hedges. apply set_eq. intros x. rewrite elem_of_endpoints. split.
    - intros (e & [Hin _]%list_elem_of_filter & Hor).
      apply endpoints_in_iff in Hin as [? ?]. by destruct Hor as [<-|<-].
    - apply Hall. }
  split; [done|]. by rewrite Hnodes.
Qed.

End extras.

End NetworkAppExtras.

(** ** The extras on the example graphs *)

Module NetworkAppExtrasExamples.
Import NetworkApp NetworkAppMore Examples MoreExamples NetworkAppExtras.


(** In the triangle with the years answered with 2001, the tables of
    [B] hold the row to [C] and no incoming row. *)
Lemma connection_tables_match_view_witness :
  ∃ v, resolve_view triangle coaches (individual "B" 1) (pick_years [2001]) = Some v
       ∧ connection_details triangle (individual "B" 1) v
         = Some (NodeDetails [edge "B" "C" 2001 "SF"] []).
Proof.
  destruct (connection_tables_match_view triangle coaches (individual "B" 1)
              (pick_years [2001]) "B") as (v & Hv & _ & Hd & _);
    [done|done|by vm_compute|].
  exists v. split; [done|]. rewrite Hd by done.
  assert (Hp : edges_df <$> resolve_view triangle coaches (individual "B" 1)
                                         (pick_years [2001])
               = Some [edge "B" "C" 2001 "SF"]) by (by vm_compute).
  rewrite Hv in Hp. injection Hp as ->. by vm_compute.
Defined.

(** Four nodes are drawn for [A] at depth 2, and four are counted. *)
Lemma counts_above_the_graph_witness :
  ∃ v, resolve_view abcd coaches (individual "A" 2) (defaults false) = Some v
       ∧ nodes_in_view v = 4%nat ∧ size (node (drawn_graph v)) = 4%nat.
Proof.
  destruct (counts_above_the_graph abcd coaches (individual "A" 2) (defaults false))
    as (v & Hv & _ & _ & Heq & _).
  - unfold coaches. simpl. repeat (apply NoDup_cons; split; [set_solver|]).
    apply NoDup_nil_2.
  - exists v. split; [done|].
    assert (Hn : nodes_in_view <$> resolve_view abcd coaches (individual "A" 2)
                                                (defaults false)
                 = Some 4%nat) by (by vm_compute).
    assert (Hs : nodes_in_edges <$> resolve_view abcd coaches (individual "A" 2)
                                                 (defaults false)
                 = Some {["A"; "B"; "C"; "D"]}) by (by vm_compute).
    rewrite Hv in Hn, Hs. injection Hn as Hn. injection Hs as Hs.
    split; [done|]. rewrite <- Heq; [done|].
    intros n. rewrite Hs, !elem_of_union, !elem_of_singleton.
    unfold coaches. simpl. intros [[[-> | ->] | ->] | ->]; repeat constructor.
Defined.

(** Nothing filtered out: [A] at depth 2 keeps its four nodes. *)
Lemma individual_view_keeps_selection_witness :
  ∃ v, resolve_view abcd coaches (individual "A" 2) (defaults false) = Some v
       ∧ nodes_in_edges v = view_connected_nodes v
       ∧ "A" ∈ nodes_in_edges v.
Proof.
  apply (individual_view_keeps_selection abcd coaches (individual "A" 2)
           (defaults false) "A").
  - reflexivity.
  - reflexivity.
  - by vm_compute.
  - intros options. reflexivity.
  - intros options. reflexivity.
  - intros e He. unfold abcd, frame, edge in He. simpl in He.
    repeat (apply elem_of_cons in He as [->|He]); simpl; eauto.
    by apply elem_of_nil in He.
Defined.

(** The first community offered is 1, with members [A], [B], [E]; the
    view selects these three and not the four nodes of the graph. *)
Lemma community_is_never_empty_witness :
  select_community true coaches first_option = Some (1, ["A"; "B"; "E"])
  ∧ ∃ v, resolve_view abcd coaches (community_selection ["A"; "B"; "E"])
                      (defaults false) = Some v
         ∧ view_warning v = None
         ∧ view_connected_nodes v = {["A"; "B"; "E"]}
         ∧ view_connected_nodes v
           ≠ node (from_pandas_edgelist (edge_rows abcd)).
Proof.
  split; [by vm_compute|].
  pose proof (community_is_never_empty true coaches first_option abcd
                (defaults false)) as Hsel.
  assert (Hbox : ∀ options, options ≠ [] → first_option options ∈ options).
  { intros [|c l] Hne; [done|]. by left. }
  specialize (Hsel Hbox).
  assert (Heq : select_community true coaches first_option
                = Some (1, ["A"; "B"; "E"])) by (by vm_compute).
  rewrite Heq in Hsel.
  destruct Hsel as (_ & _ & _ & _ & _ & v & Hv & Hw & _ & HC & _).
  exists v. split; [done|]. split; [done|].
  assert (Hset : view_connected_nodes v = {["A"; "B"; "E"]}).
  { rewrite HC. by vm_compute. }
  split; [done|]. rewrite Hset. intros Hsame.
  assert (HCin : "C" ∈ node (from_pandas_edgelist (edge_rows abcd)))
    by (by vm_compute).
  rewrite <- Hsame, !elem_of_union, !elem_of_singleton in HCin.
  destruct HCin as [[?|?]|?]; discriminate.
Defined.

(** The triangle with the years answered with 2000: the year filter
    offered 2000 and 2001, the team filter only [DAL], the team of the
    rows of 2000, although [B -> C] of [SF] joins two selected nodes. *)
Lemma facet_options_offered_witness :
  ∃ v, resolve_view triangle coaches (individual "A" 1) (pick_years [2000]) = Some v
       ∧ view_connected_nodes v = {["A"; "B"; "C"]}
       ∧ selected_years v = Some [2000]
       ∧ selected_teams v = Some ["DAL"].
Proof.
  destruct (facet_options_offered triangle coaches (individual "A" 1)
              (pick_years [2000]))
    as (C & wn & v & Hc & Hv & HC & Hy & Ht & _).
  exists v. split; [done|].
  assert (Hcc : connected_nodes (from_pandas_edgelist (edge_rows triangle))
                                (individual "A" 1) (pick_years [2000])
                = Some ({["A"; "B"; "C"]}, None)) by (by vm_compute).
  rewrite Hcc in Hc. injection Hc as <- <-.
  assert (Hyv : selected_years v = Some [2000]).
  { rewrite Hy. by vm_compute. }
  split; [done|]. split; [done|].
  rewrite Ht, Hyv. by vm_compute.
Defined.

End NetworkAppExtrasExamples.
